(** * RIDS: RF Interference Data System

    A shallow embedding of [rids.py] (classes [Spectral] and [Rids]) and the
    properties of its reader, writer, event builder and ingestion loop.

    Python objects are mutated in place and exceptions abort the running
    method; both are kept: every method is a function from the state before
    to an [outcome] that carries the state reached, also when it raises. *)

From Stdlib Require Import String Ascii List ZArith Lia Bool.
Import ListNotations.
Open Scope string_scope.
Set Warnings "-register-all".

(** ** Python values *)

(** The values a field can hold: what [json.load] produces, plus the numbers
    made by [float()] and numpy.  [number] is the type of Python numbers; the
    code never computes with them. *)
Inductive pyval (number : Type) : Type :=
| PNone
| PBool (b : bool)
| PNum (x : number)
| PStr (s : string)
| PList (l : list (pyval number))
| PDict (kvs : list (string * pyval number)).

Arguments PNone {number}.
Arguments PBool {number} b.
Arguments PNum {number} x.
Arguments PStr {number} s.
Arguments PList {number} l.
Arguments PDict {number} kvs.

(** The exceptions the code can raise. [OutOfModel] marks the one shape of
    input the embedding does not follow ([rid_reader_events]). *)
Inductive exn : Type :=
| ValueError | TypeError | AttributeError | UnboundLocalError
| IndexError | KeyError | OSError | IOError | OutOfModel.

(** The result of running a method on a state of type [S]. *)
Inductive outcome (S A : Type) : Type :=
| Ok (a : A) (st : S)
| Raise (e : exn) (st : S).

Arguments Ok {S A} a st.
Arguments Raise {S A} e st.

Definition M (S A : Type) : Type := S -> outcome S A.

Definition ret {S A} (a : A) : M S A := fun st => Ok a st.
Definition raise {S A} (e : exn) : M S A := fun st => Raise e st.
Definition bind {S A B} (m : M S A) (k : A -> M S B) : M S B :=
  fun st => match m st with
            | Ok a st' => k a st'
            | Raise e st' => Raise e st'
            end.
Definition get_state {S} : M S S := fun st => Ok st st.
Definition modify {S} (f : S -> S) : M S unit := fun st => Ok tt (f st).

Notation "x <- m ;; k" := (bind m (fun x => k))
  (at level 61, m at next level, right associativity).
Notation "m ;;; k" := (bind m (fun _ => k))
  (at level 61, right associativity).

(** [for x in l: body x] *)
Fixpoint for_each {S A} (l : list A) (body : A -> M S unit) : M S unit :=
  match l with
  | [] => ret tt
  | x :: l' => body x ;;; for_each l' body
  end.

Definition state_of {S A} (o : outcome S A) : S :=
  match o with Ok _ st => st | Raise _ st => st end.

Definition raised {S A} (o : outcome S A) : option exn :=
  match o with Ok _ _ => None | Raise e _ => Some e end.

Definition value_of {S A} (o : outcome S A) : option A :=
  match o with Ok a _ => Some a | Raise _ _ => None end.

(** ** Strings as Python 2 [str] *)

Definition is_space (c : ascii) : bool :=
  let n := nat_of_ascii c in
  (Nat.leb 9 n && Nat.leb n 13) || Nat.eqb n 32.

(** [x.split()]: the maximal runs of non-whitespace characters. *)
Fixpoint split_from (cur : string) (s : string) : list string :=
  match s with
  | EmptyString => if String.eqb cur "" then [] else [cur]
  | String c s' =>
      if is_space c
      then (if String.eqb cur "" then split_from "" s'
            else cur :: split_from "" s')
      else split_from (cur ++ String c "") s'
  end.

Definition split (x : string) : list string := split_from "" x.

Definition lower_ascii (c : ascii) : ascii :=
  let n := nat_of_ascii c in
  if Nat.leb 65 n && Nat.leb n 90 then ascii_of_nat (n + 32) else c.

Fixpoint lower (s : string) : string :=
  match s with
  | EmptyString => EmptyString
  | String c s' => String (lower_ascii c) (lower s')
  end.

(** [needle in hay] on two strings. *)
Fixpoint contains (needle hay : string) : bool :=
  String.prefix needle hay ||
  match hay with
  | EmptyString => false
  | String _ hay' => contains needle hay'
  end.

(** [s.split(sep)[-1]] for a one-character separator. *)
Fixpoint last_part_from (sep : ascii) (cur : string) (s : string) : string :=
  match s with
  | EmptyString => cur
  | String c s' =>
      if Ascii.eqb c sep then last_part_from sep "" s'
      else last_part_from sep (cur ++ String c "") s'
  end.

Definition last_part (sep : ascii) (s : string) : string :=
  last_part_from sep "" s.

Fixpoint chars (s : string) : list string :=
  match s with
  | EmptyString => []
  | String c s' => String c "" :: chars s'
  end.

Definition nl : string := String (ascii_of_nat 10) "".

(** Every character of [s] is whitespace (so also the empty string). *)
Fixpoint all_space (s : string) : bool :=
  match s with
  | EmptyString => true
  | String c s' => is_space c && all_space s'
  end.

(** No character of [s] is whitespace. *)
Fixpoint no_space (s : string) : bool :=
  match s with
  | EmptyString => true
  | String c s' => negb (is_space c) && no_space s'
  end.

(** A non-empty string without whitespace: what [split] returns as one
    token. *)
Definition is_token (s : string) : bool :=
  match s with
  | EmptyString => false
  | String _ _ => no_space s
  end.

(** ** Dictionaries with string keys *)

Section Dict.
Context {V : Type}.

Fixpoint dict_get (k : string) (d : list (string * V)) : option V :=
  match d with
  | [] => None
  | (k', v) :: d' => if String.eqb k k' then Some v else dict_get k d'
  end.

(** [d[k] = v]: the value of an existing key is replaced in place, a new
    key is added. *)
Fixpoint dict_set (k : string) (v : V) (d : list (string * V))
  : list (string * V) :=
  match d with
  | [] => [(k, v)]
  | (k', v') :: d' =>
      if String.eqb k k' then (k, v) :: d' else (k', v') :: dict_set k v d'
  end.

Definition dict_has (k : string) (d : list (string * V)) : bool :=
  match dict_get k d with Some _ => true | None => false end.
End Dict.

(** ** External collaborators

    [rids_utils] and [peaks] are imported by [rids.py] and [json], [gzip],
    [float] and [str] are Python's own; the embedding takes them as given.
    A [result] is what a call that may raise gives back. *)

Inductive result (A : Type) : Type :=
| Done (a : A)
| Fail (e : exn).

Arguments Done {A} a.
Arguments Fail {A} e.

Record Collaborators : Type := {
  number : Type;
  (** the contents of a file *)
  content : Type;
  (** [float(s)]; [None] is [ValueError] *)
  float_of_string : string -> option number;
  (** [str(x)] of a number, as [format] renders it *)
  str_of_number : number -> string;
  (** [str(x)] of a list or a dict *)
  str_of_container : pyval number -> string;
  (** [json.dumps(ds, sort_keys=True, indent=4, separators=(',', ':'))] *)
  json_dumps : pyval number -> content;
  (** [rids_utils.fix_json_list] *)
  fix_json_list : content -> content;
  (** [json.load]; [None] is [ValueError] *)
  json_load : content -> option (pyval number);
  (** what [gzip.open(filename, 'wb')] stores for the text written *)
  gzip_write : content -> content;
  (** what [gzip.open(filename, 'rb')] reads back; [None] is [IOError] *)
  gzip_read : content -> option content;
  (** [rids_utils.spectrum_reader(path, spectral, polarization)], given the
      contents of the file: the [freq] and [val] it stores in [spectral] *)
  spectrum_reader :
    string -> content -> string -> result (list number * list number);
  (** [peaks.fp(val, threshold, cwt_range, rc_range)] *)
  peaks_fp :
    list number -> pyval number -> list Z -> list Z -> result (list Z);
  (** [rids_utils.peel_type_polarization(filename)] *)
  peel_type_polarization : string -> string * string;
  (** [rids_utils.peel_time_stamp(path)] *)
  peel_time_stamp : string -> string
}.

(** ** The data model *)

Section RidsModel.
Context (C : Collaborators).

Definition value : Type := pyval (number C).

(** [str(x)], which is also what ["{}".format(x)] renders. *)
Definition py_str (x : value) : string :=
  match x with
  | PNone => "None"
  | PBool true => "True"
  | PBool false => "False"
  | PNum n => str_of_number C n
  | PStr s => s
  | PList _ | PDict _ => str_of_container C x
  end.

(** [class Spectral]: [comment], [polarization], [freq] and [val] are set
    by the constructor; [ave] and [maxhold] exist only once assigned. *)
Record Spectral : Type := mkSpectral {
  sp_comment : value;
  sp_polarization : value;
  sp_freq : value;
  sp_val : value;
  sp_ave : option value;
  sp_maxhold : option value
}.

(** [Spectral(polarization=..., comment=...)] *)
Definition new_Spectral (polarization comment : value) : Spectral :=
  {| sp_comment := comment; sp_polarization := polarization;
     sp_freq := PList []; sp_val := PList [];
     sp_ave := None; sp_maxhold := None |}.

Inductive sfield : Type :=
| Fcomment | Fpolarization | Ffreq | Fval | Fave | Fmaxhold.

Definition spectral_fields : list sfield :=
  [Fcomment; Fpolarization; Ffreq; Fval; Fave; Fmaxhold].

Definition sfield_name (v : sfield) : string :=
  match v with
  | Fcomment => "comment" | Fpolarization => "polarization"
  | Ffreq => "freq" | Fval => "val" | Fave => "ave" | Fmaxhold => "maxhold"
  end.

(** [getattr(sp, v)]; [None] is [AttributeError]. *)
Definition spectral_getattr (v : sfield) (sp : Spectral) : option value :=
  match v with
  | Fcomment => Some (sp_comment sp)
  | Fpolarization => Some (sp_polarization sp)
  | Ffreq => Some (sp_freq sp)
  | Fval => Some (sp_val sp)
  | Fave => sp_ave sp
  | Fmaxhold => sp_maxhold sp
  end.

(** [setattr(sp, v, x)] *)
Definition spectral_setattr (v : sfield) (x : value) (sp : Spectral)
  : Spectral :=
  match v with
  | Fcomment =>
      mkSpectral x (sp_polarization sp) (sp_freq sp) (sp_val sp)
                 (sp_ave sp) (sp_maxhold sp)
  | Fpolarization =>
      mkSpectral (sp_comment sp) x (sp_freq sp) (sp_val sp)
                 (sp_ave sp) (sp_maxhold sp)
  | Ffreq =>
      mkSpectral (sp_comment sp) (sp_polarization sp) x (sp_val sp)
                 (sp_ave sp) (sp_maxhold sp)
  | Fval =>
      mkSpectral (sp_comment sp) (sp_polarization sp) (sp_freq sp) x
                 (sp_ave sp) (sp_maxhold sp)
  | Fave =>
      mkSpectral (sp_comment sp) (sp_polarization sp) (sp_freq sp)
                 (sp_val sp) (Some x) (sp_maxhold sp)
  | Fmaxhold =>
      mkSpectral (sp_comment sp) (sp_polarization sp) (sp_freq sp)
                 (sp_val sp) (sp_ave sp) (Some x)
  end.

(** The header fields stored as they come ([Rids.dattr]). *)
Inductive dattr : Type :=
| instrument | receiver | time_stamp | freq_unit | val_unit.

Definition dattrs : list dattr :=
  [instrument; receiver; time_stamp; freq_unit; val_unit].

Definition dattr_name (d : dattr) : string :=
  match d with
  | instrument => "instrument" | receiver => "receiver"
  | time_stamp => "time_stamp" | freq_unit => "freq_unit"
  | val_unit => "val_unit"
  end.

(** The header fields stored as a value and a unit ([Rids.uattr]). *)
Inductive uattr : Type :=
| channel_width | time_constant | threshold | vbw.

Definition uattrs : list uattr :=
  [channel_width; time_constant; threshold; vbw].

Definition uattr_name (d : uattr) : string :=
  match d with
  | channel_width => "channel_width" | time_constant => "time_constant"
  | threshold => "threshold" | vbw => "vbw"
  end.

Definition polarizations : list string := ["E"; "N"].

(** [class Rids]: [d_field] and [u_field]/[u_unit] hold the attributes
    named by [dattr], [uattr] and [uattr + '_unit']. *)
Record Rids : Type := mkRids {
  d_field : dattr -> value;
  u_field : uattr -> value;
  u_unit : uattr -> value;
  comment : value;
  cal : list (string * Spectral);
  events : list (string * Spectral);
  hipk : option (list Z);
  hipk_freq : option (list (number C));
  hipk_val : option (list (number C))
}.

(** [Rids(comment=...)] *)
Definition new_Rids (c : value) : Rids :=
  {| d_field := fun _ => PNone;
     u_field := fun _ => PNone;
     u_unit := fun _ => PNone;
     comment := c;
     cal := fold_left
              (fun cal pol =>
                 dict_set pol (new_Spectral (PStr pol) (PStr "")) cal)
              polarizations [];
     events := [];
     hipk := None; hipk_freq := None; hipk_val := None |}.

Definition dattr_eqb (a b : dattr) : bool :=
  String.eqb (dattr_name a) (dattr_name b).
Definition uattr_eqb (a b : uattr) : bool :=
  String.eqb (uattr_name a) (uattr_name b).

Definition set_d_field (d : dattr) (x : value) (r : Rids) : Rids :=
  mkRids (fun d' => if dattr_eqb d' d then x else d_field r d')
         (u_field r) (u_unit r) (comment r) (cal r) (events r)
         (hipk r) (hipk_freq r) (hipk_val r).

Definition set_u_field (d : uattr) (x : value) (r : Rids) : Rids :=
  mkRids (d_field r)
         (fun d' => if uattr_eqb d' d then x else u_field r d')
         (u_unit r) (comment r) (cal r) (events r)
         (hipk r) (hipk_freq r) (hipk_val r).

Definition set_u_unit (d : uattr) (x : value) (r : Rids) : Rids :=
  mkRids (d_field r) (u_field r)
         (fun d' => if uattr_eqb d' d then x else u_unit r d')
         (comment r) (cal r) (events r)
         (hipk r) (hipk_freq r) (hipk_val r).

Definition set_comment (x : value) (r : Rids) : Rids :=
  mkRids (d_field r) (u_field r) (u_unit r) x (cal r) (events r)
         (hipk r) (hipk_freq r) (hipk_val r).

Definition set_cal (x : list (string * Spectral)) (r : Rids) : Rids :=
  mkRids (d_field r) (u_field r) (u_unit r) (comment r) x (events r)
         (hipk r) (hipk_freq r) (hipk_val r).

Definition set_events (x : list (string * Spectral)) (r : Rids) : Rids :=
  mkRids (d_field r) (u_field r) (u_unit r) (comment r) (cal r) x
         (hipk r) (hipk_freq r) (hipk_val r).

(** ** [Rids._set_uattr] *)

Definition _set_uattr (d : uattr) (x : value) : M Rids unit :=
  match x with
  | PStr s =>
      match split s with
      | [] => raise UnboundLocalError
      | [v0] =>
          modify (set_u_field d (PStr v0)) ;;;
          modify (set_u_unit d PNone)
      | v0 :: v1 :: _ =>
          let d0 := match float_of_string C v0 with
                    | Some f => PNum f
                    | None => PStr v0
                    end in
          modify (set_u_field d d0) ;;;
          modify (set_u_unit d (PStr v1))
      end
  | _ => raise AttributeError
  end.

(** ** [Rids.append_comment] *)

Definition append_comment (c : value) : M Rids unit :=
  fun st =>
    match c with
    | PNone => Ok tt st
    | _ =>
        match comment st with
        | PNone => Ok tt (set_comment c st)
        | cur =>
            match c with
            | PStr s =>
                match cur with
                | PStr s0 => Ok tt (set_comment (PStr (s0 ++ nl ++ s)) st)
                | PList l =>
                    Ok tt (set_comment
                             (PList (l ++ map PStr (chars (nl ++ s)))) st)
                | _ => Raise TypeError st
                end
            | _ => Raise TypeError st
            end
        end
    end.

(** ** [Rids.set] *)

Definition dattr_of_name (k : string) : option dattr :=
  find (fun d => String.eqb k (dattr_name d)) dattrs.

Definition uattr_of_name (k : string) : option uattr :=
  find (fun d => String.eqb k (uattr_name d)) uattrs.

Definition set (kwargs : list (string * value)) : M Rids unit :=
  for_each kwargs
    (fun kv =>
       match dattr_of_name (fst kv) with
       | Some d => modify (set_d_field d (snd kv))
       | None =>
           match uattr_of_name (fst kv) with
           | Some d => _set_uattr d (snd kv)
           | None => ret tt
           end
       end).

(** ** The file system

    A disk maps a path to the contents of the file there.  The directories
    that exist are listed beside it, each by its path without a trailing
    separator; a directory holds the files and the directories whose path
    is [os.path.join(directory, name)].  Paths are compared as strings: a
    world describes its files and directories under the spellings the
    program uses for them.  The code creates and removes files only, never
    a directory. *)

Definition disk_t : Type := list (string * content C).

Fixpoint dict_remove {V} (k : string) (d : list (string * V))
  : list (string * V) :=
  match d with
  | [] => []
  | (k', v) :: d' =>
      if String.eqb k k' then dict_remove k d' else (k', v) :: dict_remove k d'
  end.

Definition ends_with_slash (s : string) : bool :=
  match s with
  | EmptyString => false
  | _ => String.eqb (last_part "/" s) ""
  end.

(** [os.path.join(a, b)] *)
Definition os_path_join (a b : string) : string :=
  if String.prefix "/" b then b
  else if String.eqb a "" || ends_with_slash a then a ++ b
  else a ++ "/" ++ b.

Fixpoint strip_prefix (p s : string) : option string :=
  match p, s with
  | EmptyString, _ => Some s
  | String a p', String b s' =>
      if Ascii.eqb a b then strip_prefix p' s' else None
  | String _ _, EmptyString => None
  end.

Definition dir_prefix (directory : string) : string :=
  if ends_with_slash directory then directory else directory ++ "/".

(** Whether [directory] names one of the directories [ds]; the empty path
    names none. *)
Definition is_dir (directory : string) (ds : list string) : bool :=
  negb (String.eqb directory "")
  && existsb (fun p => String.eqb (dir_prefix p) (dir_prefix directory)) ds.

(** The name of [path] in [directory], when it lies right there. *)
Definition entry_name (directory path : string) : list string :=
  match strip_prefix (dir_prefix directory) path with
  | Some name =>
      if String.eqb name "" || contains "/" name then [] else [name]
  | None => []
  end.

(** [os.listdir(directory)]: the names of the files and of the directories
    in [directory]; [OSError] when there is no such directory. *)
Definition os_listdir (directory : string) (ds : list string) (d : disk_t)
  : result (list string) :=
  if is_dir directory ds
  then Done (flat_map (entry_name directory) (map fst d ++ ds))
  else Fail OSError.

Fixpoint insert_sorted (x : string) (l : list string) : list string :=
  match l with
  | [] => [x]
  | y :: l' => if String.leb x y then x :: l else y :: insert_sorted x l'
  end.

(** [sorted(l)] on strings *)
Definition sorted (l : list string) : list string :=
  fold_right insert_sorted [] l.

(** What the methods do to the world outside the document, in order. *)
Inductive action : Type :=
| AScan (directory : string)
| ABuild (event ave_fn maxhold_fn : string)
| ARemove (path : string)
| AWrite (path : string).

Record world : Type := mkWorld {
  doc : Rids;
  disk : disk_t;
  dirs : list string;
  log : list action
}.

Definition on_doc {A} (m : M Rids A) : M world A :=
  fun w =>
    match m (doc w) with
    | Ok a r => Ok a (mkWorld r (disk w) (dirs w) (log w))
    | Raise e r => Raise e (mkWorld r (disk w) (dirs w) (log w))
    end.

Definition tell (a : action) : M world unit :=
  modify (fun w => mkWorld (doc w) (disk w) (dirs w) (log w ++ [a])).

Definition lift {S A} (r : result A) : M S A :=
  match r with
  | Done a => ret a
  | Fail e => raise e
  end.

Definition is_ridz (filename : string) : bool :=
  String.eqb (lower (last_part "." filename)) "ridz".

(** ** [Rids.rid_reader] *)

(** [k in x] for a string [k] *)
Definition py_in (k : string) (x : value) : result bool :=
  match x with
  | PDict kvs => Done (dict_has k kvs)
  | PList l =>
      Done (existsb (fun e => match e with
                              | PStr s => String.eqb s k
                              | _ => false
                              end) l)
  | PStr s => Done (contains k s)
  | PNone | PBool _ | PNum _ => Fail TypeError
  end.

(** [x[k]] for a string [k] *)
Definition py_getitem (x : value) (k : string) : result value :=
  match x with
  | PDict kvs =>
      match dict_get k kvs with
      | Some v => Done v
      | None => Fail KeyError
      end
  | _ => Fail TypeError
  end.

(** The values [for d in x] goes through. *)
Definition py_iter (x : value) : result (list value) :=
  match x with
  | PDict kvs => Done (map (fun kv => PStr (fst kv)) kvs)
  | PList l => Done l
  | PStr s => Done (map PStr (chars s))
  | PNone | PBool _ | PNum _ => Fail TypeError
  end.

(** [if k in data: body(data[k])] *)
Definition if_present {S} (k : string) (data : value)
           (body : value -> M S unit) : M S unit :=
  b <- lift (py_in k data) ;;
  if b then x <- lift (py_getitem data k) ;; body x else ret tt.

(** [setattr(spectra[name], v, x)] *)
Definition setattr_in (name : string) (v : sfield) (x : value)
           (spectra : list (string * Spectral))
  : result (list (string * Spectral)) :=
  match dict_get name spectra with
  | Some sp => Done (dict_set name (spectral_setattr v x sp) spectra)
  | None => Fail KeyError
  end.

Definition rid_reader_cal (data : value) : M Rids unit :=
  b <- lift (py_in "cal" data) ;;
  if b then
    for_each polarizations
      (fun pol =>
         dcal <- lift (py_getitem data "cal") ;;
         b <- lift (py_in pol dcal) ;;
         if b then
           for_each spectral_fields
             (fun v =>
                dcal <- lift (py_getitem data "cal") ;;
                dpol <- lift (py_getitem dcal pol) ;;
                if_present (sfield_name v) dpol
                  (fun x =>
                     st <- get_state ;;
                     c <- lift (setattr_in pol v x (cal st)) ;;
                     modify (set_cal c)))
         else ret tt)
  else ret tt.

(** The loop over [data['events']].  An element of a JSON array that is a
    number, a boolean or null would become an event name that is not a
    string; the embedding keeps string names only and answers
    [OutOfModel] there. *)
Definition rid_reader_events (data : value) : M Rids unit :=
  b <- lift (py_in "events" data) ;;
  if b then
    devents <- lift (py_getitem data "events") ;;
    ds <- lift (py_iter devents) ;;
    for_each ds
      (fun d =>
         match d with
         | PStr name =>
             modify (fun st =>
                       set_events
                         (dict_set name (new_Spectral (PStr "") (PStr ""))
                                   (events st)) st) ;;;
             for_each spectral_fields
               (fun v =>
                  devents <- lift (py_getitem data "events") ;;
                  dev <- lift (py_getitem devents name) ;;
                  if_present (sfield_name v) dev
                    (fun x =>
                       st <- get_state ;;
                       e <- lift (setattr_in name v x (events st)) ;;
                       modify (set_events e)))
         | PList _ | PDict _ => raise TypeError
         | PNone | PBool _ | PNum _ => raise OutOfModel
         end)
  else ret tt.

(** The body of [rid_reader] after [json.load]. *)
Definition rid_reader_data (data : value) : M Rids unit :=
  if_present "comment" data append_comment ;;;
  for_each dattrs
    (fun d => if_present (dattr_name d) data
                (fun x => modify (set_d_field d x))) ;;;
  for_each uattrs
    (fun d => if_present (uattr_name d) data (_set_uattr d)) ;;;
  rid_reader_cal data ;;;
  rid_reader_events data.

(** [with r_open(filename, 'rb') as f: data = json.load(f)] *)
Definition read_json (filename : string) : M world value :=
  fun w =>
    match dict_get filename (disk w) with
    | None => Raise IOError w
    | Some c =>
        let text := if is_ridz filename then gzip_read C c else Some c in
        match text with
        | None => Raise IOError w
        | Some t =>
            match json_load C t with
            | None => Raise ValueError w
            | Some data => Ok data w
            end
        end
    end.

Definition rid_reader (filename : string) : M world unit :=
  data <- read_json filename ;;
  on_doc (rid_reader_data data).

(** The keys [rid_reader] looks up in [data], in order. *)
Definition looked_up_keys : list string :=
  "comment" :: map dattr_name dattrs ++ map uattr_name uattrs
            ++ ["cal"; "events"].

Definition is_object (data : value) : bool :=
  match data with PDict _ => true | _ => false end.

(** For a [data] that is not a dict: some [k in data] of the reader raises,
    or is true so that [data[k]] raises. *)
Definition trips (data : value) : bool :=
  match data with
  | PNone | PBool _ | PNum _ => true
  | PStr s => existsb (fun k => contains k s) looked_up_keys
  | PList l =>
      existsb (fun k => existsb (fun e => match e with
                                          | PStr s => String.eqb s k
                                          | _ => false
                                          end) l) looked_up_keys
  | PDict _ => false
  end.

(** ** [Rids.rid_writer] *)

(** The dict built from one [Spectral]: the fields that exist. *)
Definition writer_spectral (sp : Spectral) : value :=
  PDict (fold_left
           (fun d v =>
              match spectral_getattr v sp with
              | Some x => dict_set (sfield_name v) x d
              | None => d
              end) spectral_fields []).

Definition writer_cal (r : Rids) : result (list (string * value)) :=
  fold_left
    (fun acc pol =>
       match acc with
       | Fail e => Fail e
       | Done d =>
           match dict_get pol (cal r), dict_get pol d with
           | Some sp, Some _ => Done (dict_set pol (writer_spectral sp) d)
           | _, _ => Fail KeyError
           end
       end) polarizations (Done [("E", PDict []); ("N", PDict [])]).

Definition writer_events (r : Rids) : list (string * value) :=
  fold_left (fun d kv => dict_set (fst kv) (writer_spectral (snd kv)) d)
            (events r) [].

(** The dict [ds] that [rid_writer] serialises. *)
Definition writer_ds (r : Rids) : result value :=
  let ds0 := dict_set "comment" (comment r) [] in
  let ds1 := fold_left (fun ds d => dict_set (dattr_name d) (d_field r d) ds)
                       dattrs ds0 in
  let ds2 := fold_left
               (fun ds d =>
                  dict_set (uattr_name d)
                    (PStr (py_str (u_field r d) ++ " " ++ py_str (u_unit r d)))
                    ds) uattrs ds1 in
  match writer_cal r with
  | Fail e => Fail e
  | Done c =>
      Done (PDict (dict_set "events" (PDict (writer_events r))
                     (dict_set "cal" (PDict c) ds2)))
  end.

(** [open(filename, 'wb')] is taken to succeed: the path handed to the
    writer is writable ([process_files] writes into the directory it has
    just listed). *)
Definition rid_writer (filename : string) (fix_list : bool) : M world unit :=
  w <- get_state ;;
  ds <- lift (writer_ds (doc w)) ;;
  let jsd := json_dumps C ds in
  let jsd := if fix_list then fix_json_list C jsd else jsd in
  let stored := if is_ridz filename then gzip_write C jsd else jsd in
  modify (fun w => mkWorld (doc w) (dict_set filename stored (disk w))
                           (dirs w) (log w)) ;;;
  tell (AWrite filename).

(** ** [Rids.get_event] and [Rids.peak_finder] *)

(** [np.array(l)[i]] for one integer [i]: negative indices count from the
    end; [None] is [IndexError]. *)
Definition np_index {A} (l : list A) (i : Z) : option A :=
  let n := Z.of_nat (length l) in
  if (0 <=? i)%Z then nth_error l (Z.to_nat i)
  else if (- n <=? i)%Z then nth_error l (Z.to_nat (n + i))
  else None.

(** [list(np.array(l)[idx])] for a list of indices. *)
Fixpoint np_take {A} (l : list A) (idx : list Z) : option (list A) :=
  match idx with
  | [] => Some []
  | i :: idx' =>
      match np_index l i, np_take l idx' with
      | Some x, Some xs => Some (x :: xs)
      | _, _ => None
      end
  end.

(** An index numpy accepts for [l]. *)
Definition in_bounds {A} (l : list A) (i : Z) : Prop :=
  (- Z.of_nat (length l) <= i < Z.of_nat (length l))%Z.

Definition numbers (l : list (number C)) : value := PList (map PNum l).

(** [spec = Spectral(); utils.spectrum_reader(fn, spec, polarization)]:
    the [freq] and [val] of [spec]. *)
Definition read_spectrum (fn polarization : string)
  : M world (list (number C) * list (number C)) :=
  fun w =>
    match dict_get fn (disk w) with
    | None => Raise IOError w
    | Some c =>
        match spectrum_reader C fn c polarization with
        | Done fv => Ok fv w
        | Fail e => Raise e w
        end
    end.

Definition cwt_range : list Z := [1; 7]%Z.
Definition rc_range : list Z := [4; 4]%Z.

Definition set_hipk (fr va : option (list (number C)))
           (pk : option (list Z)) (r : Rids) : Rids :=
  mkRids (d_field r) (u_field r) (u_unit r) (comment r) (cal r) (events r)
         pk fr va.

(** [peak_finder(spec)] with the default ranges, for a [spec] of the given
    [freq] and [val]. *)
Definition peak_finder (spec_freq spec_val : list (number C))
  : M Rids unit :=
  modify (fun r => set_hipk (Some spec_freq) (hipk_val r) (hipk r) r) ;;;
  modify (fun r => set_hipk (hipk_freq r) (Some spec_val) (hipk r) r) ;;;
  r <- get_state ;;
  pk <- lift (peaks_fp C spec_val (u_field r threshold) cwt_range rc_range) ;;
  modify (fun r => set_hipk (hipk_freq r) (hipk_val r) (Some pk) r).

(** [self.events[event].<v> = x] *)
Definition set_event_field (event : string) (v : sfield) (x : value)
  : M Rids unit :=
  r <- get_state ;;
  e <- lift (setattr_in event v x (events r)) ;;
  modify (set_events e).

Definition is_baseline (event : string) : bool :=
  contains "baseline" (lower event).

(** The part of [get_event] after the two spectra are read. *)
Definition build_event (event polarization : string)
           (ave maxhold : list (number C) * list (number C))
  : M Rids unit :=
  modify (fun r =>
            set_events
              (dict_set event (new_Spectral (PStr polarization) (PStr ""))
                        (events r)) r) ;;;
  if is_baseline event then
    set_event_field event Ffreq
      (numbers (if Nat.ltb (length (fst maxhold)) (length (fst ave))
                then fst ave else fst maxhold)) ;;;
    set_event_field event Fave (numbers (snd ave)) ;;;
    set_event_field event Fmaxhold (numbers (snd maxhold))
  else
    peak_finder (fst maxhold) (snd maxhold) ;;;
    r <- get_state ;;
    let pk := match hipk r with Some pk => pk | None => [] end in
    match np_take (fst maxhold) pk with
    | None => raise IndexError
    | Some fr =>
        set_event_field event Ffreq (numbers fr) ;;;
        match np_take (snd ave) pk with
        | Some av => set_event_field event Fave (numbers av)
        | None => ret tt
        end ;;;
        match np_take (snd maxhold) pk with
        | None => raise IndexError
        | Some mx => set_event_field event Fmaxhold (numbers mx)
        end
    end.

Definition get_event (event ave_fn maxhold_fn polarization : string)
  : M world unit :=
  ave <- read_spectrum ave_fn polarization ;;
  maxhold <- read_spectrum maxhold_fn polarization ;;
  on_doc (build_event event polarization ave maxhold) ;;;
  tell (ABuild event ave_fn maxhold_fn).

(** ** [Rids.process_files] *)

(** The dict [f] of one scan: [f[ftype][pol]] for the two file types and
    the two polarizations. *)
Record file_lists : Type := mkFiles {
  ave_E : list string;
  ave_N : list string;
  maxh_E : list string;
  maxh_N : list string
}.

Definition no_files : file_lists := mkFiles [] [] [] [].

(** [f[ftype][pol]]; [None] is [KeyError]. *)
Definition f_get (ftype pol : string) (f : file_lists)
  : option (list string) :=
  if String.eqb ftype "ave" then
    if String.eqb pol "E" then Some (ave_E f)
    else if String.eqb pol "N" then Some (ave_N f) else None
  else if String.eqb ftype "maxh" then
    if String.eqb pol "E" then Some (maxh_E f)
    else if String.eqb pol "N" then Some (maxh_N f) else None
  else None.

(** [f[ftype][pol].append(path)]; [None] is [KeyError]. *)
Definition f_append (ftype pol path : string) (f : file_lists)
  : option file_lists :=
  if String.eqb ftype "ave" then
    if String.eqb pol "E"
    then Some (mkFiles (ave_E f ++ [path]) (ave_N f) (maxh_E f) (maxh_N f))
    else if String.eqb pol "N"
    then Some (mkFiles (ave_E f) (ave_N f ++ [path]) (maxh_E f) (maxh_N f))
    else None
  else if String.eqb ftype "maxh" then
    if String.eqb pol "E"
    then Some (mkFiles (ave_E f) (ave_N f) (maxh_E f ++ [path]) (maxh_N f))
    else if String.eqb pol "N"
    then Some (mkFiles (ave_E f) (ave_N f) (maxh_E f) (maxh_N f ++ [path]))
    else None
  else None.

Definition qualifies (ftype : string) : bool :=
  String.eqb ftype "ave" || String.eqb ftype "maxh".

(** The loop over [available_files]: the lists and the [loop] flag. *)
Fixpoint classify (directory : string) (available_files : list string)
         (f : file_lists) (loop : bool) : result (file_lists * bool) :=
  match available_files with
  | [] => Done (f, loop)
  | af :: rest =>
      let tp := peel_type_polarization C af in
      if qualifies (fst tp) then
        match f_append (fst tp) (snd tp) (os_path_join directory af) f with
        | Some f' => classify directory rest f' true
        | None => Fail KeyError
        end
      else classify directory rest f loop
  end.

(** [l[:n]] *)
Definition slice_to {A} (n : Z) (l : list A) : list A :=
  if (0 <=? n)%Z then firstn (Z.to_nat n) l
  else firstn (Z.to_nat (Z.of_nat (length l) + n)) l.

(** [os.remove(path)] *)
Definition os_remove (path : string) : M world unit :=
  fun w =>
    match dict_get path (disk w) with
    | None => Raise OSError w
    | Some _ =>
        Ok tt (mkWorld (doc w) (dict_remove path (disk w)) (dirs w)
                       (log w ++ [ARemove path]))
    end.

(** The body of the loop over [zip(...)]. *)
Definition process_pair (pol : string) (am : string * string)
  : M world unit :=
  let time_stamp := peel_time_stamp C (fst am) ++ pol in
  get_event time_stamp (fst am) (snd am) pol ;;;
  os_remove (fst am) ;;;
  os_remove (snd am).

(** The body of [for pol in self.polarizations]. *)
Definition process_pol (obs_per_file : Z) (f : file_lists) (pol : string)
  : M world unit :=
  match f_get "ave" pol f, f_get "maxh" pol f with
  | Some la, Some lm =>
      if Nat.eqb (length la) 0 || Nat.eqb (length lm) 0 then ret tt
      else if negb (Nat.eqb (length la) (length lm)) then ret tt
      else
        match la, lm with
        | a0 :: _, m0 :: _ =>
            on_doc (set [("time_stamp", PStr (peel_time_stamp C a0))]) ;;;
            get_event ("baseline_" ++ pol) a0 m0 pol ;;;
            for_each (combine (slice_to obs_per_file la)
                              (slice_to obs_per_file lm))
                     (process_pair pol)
        | _, _ => raise IndexError
        end
  | _, _ => raise KeyError
  end.

(** One pass through the body of the [while] loop, after the counter
    check: the value is the [loop] flag. *)
Definition scan_cycle (directory : string) (obs_per_file : Z)
  : M world bool :=
  tell (AScan directory) ;;;
  w <- get_state ;;
  names <- lift (os_listdir directory (dirs w) (disk w)) ;;
  let available_files := sorted names in
  fl <- lift (classify directory available_files no_files false) ;;
  for_each polarizations (process_pol obs_per_file (fst fl)) ;;;
  w <- get_state ;;
  let output_file :=
    os_path_join directory (py_str (d_field (doc w) time_stamp) ++ ".ridz") in
  rid_writer output_file true ;;;
  ret (snd fl).

Inductive loop_end : Type :=
| Finished
| OutOfFuel.

(** The [while (loop)] of [process_files], entered with [loop] true and
    the given [max_loop_ctr]; [fuel] bounds the passes of the embedding. *)
Fixpoint while_loop (fuel : nat) (directory : string)
         (obs_per_file max_loops max_loop_ctr : Z) : M world loop_end :=
  match fuel with
  | O => ret OutOfFuel
  | S fuel' =>
      let max_loop_ctr := (max_loop_ctr + 1)%Z in
      if (max_loops <? max_loop_ctr)%Z then ret Finished
      else
        loop <- scan_cycle directory obs_per_file ;;
        if loop
        then while_loop fuel' directory obs_per_file max_loops max_loop_ctr
        else ret Finished
  end.

Definition process_files_fuel (fuel : nat) (directory : string)
           (obs_per_file max_loops : Z) : M world loop_end :=
  while_loop fuel directory obs_per_file max_loops 0.

(** [process_files(directory, obs_per_file, max_loops)] *)
Definition process_files (directory : string) (obs_per_file max_loops : Z)
  : M world loop_end :=
  process_files_fuel (S (Z.to_nat max_loops)) directory obs_per_file
                     max_loops.

(** The number of directory scans recorded in a log. *)
Definition scans (l : list action) : nat :=
  length (filter (fun a => match a with AScan _ => true | _ => false end) l).

Definition removals (l : list action) : list string :=
  flat_map (fun a => match a with ARemove p => [p] | _ => [] end) l.

(** The pairs one pass of [process_pol] goes through. *)
Definition batch (obs_per_file : Z) (la lm : list string)
  : list (string * string) :=
  combine (slice_to obs_per_file la) (slice_to obs_per_file lm).

(** What the loop over the pairs adds to the log. *)
Definition pair_actions (pol : string) (pairs : list (string * string))
  : list action :=
  flat_map (fun am => [ABuild (peel_time_stamp C (fst am) ++ pol)
                              (fst am) (snd am);
                       ARemove (fst am); ARemove (snd am)]) pairs.

(** The disk without the files of the pairs. *)
Definition remove_pairs (pairs : list (string * string)) (d : disk_t)
  : disk_t :=
  fold_left (fun d am => dict_remove (snd am) (dict_remove (fst am) d))
            pairs d.

(** The world right after the call of [os.listdir]. *)
Definition after_scan (directory : string) (w : world) : world :=
  mkWorld (doc w) (disk w) (dirs w) (log w ++ [AScan directory]).

(** Both calibration records are in place, as [__init__] leaves them. *)
Definition has_cal (r : Rids) : bool :=
  dict_has "E" (cal r) && dict_has "N" (cal r).

(** [output_file] of a cycle that ends in world [w]. *)
Definition output_file (directory : string) (w : world) : string :=
  os_path_join directory (py_str (d_field (doc w) time_stamp) ++ ".ridz").

(** A method that adds no directory scan to the log, however it ends. *)
Definition quiet {A} (m : M world A) : Prop :=
  forall w, scans (log (state_of (m w))) = scans (log w).

(** Whether a directory entry is an [ave] or a [maxh] capture. *)
Definition is_capture (af : string) : bool :=
  qualifies (fst (peel_type_polarization C af)).

(** What a build of [event] leaves alone in a document: the header, the
    comment, the calibration records and every other event. *)
Definition untouched (event : string) (r r' : Rids) : Prop :=
  (forall d, d_field r' d = d_field r d)
  /\ (forall d, u_field r' d = u_field r d)
  /\ (forall d, u_unit r' d = u_unit r d)
  /\ comment r' = comment r
  /\ cal r' = cal r
  /\ (forall other,
        other <> event ->
        dict_get other (events r') = dict_get other (events r)).

(** A method on the document that stays within [untouched], however it
    ends. *)
Definition frames {A} (event : string) (m : M Rids A) : Prop :=
  forall r, untouched event r (state_of (m r)).

(** A method on the document that leaves one of its parts as it was,
    however it ends. *)
Definition keeps {A T} (part : Rids -> T) (m : M Rids A) : Prop :=
  forall st, part (state_of (m st)) = part st.

(** What loading the source's [body] of an event does to one field of the
    event's record. *)
Definition apply_field (body : value) (sp : Spectral) (v : sfield)
  : Spectral :=
  match body with
  | PDict kv =>
      match dict_get (sfield_name v) kv with
      | Some x => spectral_setattr v x sp
      | None => sp
      end
  | _ => sp
  end.

(** The record a successful load makes of the source's [body] of an event:
    a new [Spectral()] with the fields the body has. *)
Definition loaded_event (body : value) : Spectral :=
  fold_left (apply_field body) spectral_fields
            (new_Spectral (PStr "") (PStr "")).

(** Two documents with the same header (but for the time stamp), comment
    and calibration records. *)
Definition same_header (r r' : Rids) : Prop :=
  (forall d, d <> time_stamp -> d_field r' d = d_field r d)
  /\ (forall d, u_field r' d = u_field r d)
  /\ (forall d, u_unit r' d = u_unit r d)
  /\ comment r' = comment r
  /\ cal r' = cal r.


(** The paths of the listed files of one type and one polarization. *)
Definition select (directory ftype pol : string) (files : list string)
  : list string :=
  map (os_path_join directory)
      (filter (fun af =>
                 String.eqb (fst (peel_type_polarization C af)) ftype
                 && String.eqb (snd (peel_type_polarization C af)) pol)
              files).

(** A capture file whose polarization is neither E nor N. *)
Definition stray (af : string) : bool :=
  is_capture af
  && negb (String.eqb (snd (peel_type_polarization C af)) "E"
           || String.eqb (snd (peel_type_polarization C af)) "N").

(** [x[k]] of an object [x] that has the key [k]. *)
Definition item (k : string) (x : value) : option value :=
  match x with
  | PDict kvs => dict_get k kvs
  | _ => None
  end.

(** Two objects with the same value under each of [keys]. *)
Definition agree_on (keys : list string) (a b : value) : Prop :=
  is_object a = true /\ is_object b = true
  /\ forall k, In k keys -> item k b = item k a.

(** The keys of the header and of the events in the top-level object. *)
Definition plain_keys : list string :=
  "comment" :: map dattr_name dattrs ++ map uattr_name uattrs ++ ["events"].

(** [data] holds what the written [ds] holds in every place [rid_reader]
    looks at: the same header values and events, and under [cal] an object
    that holds for each polarization an object with the same fields.  The
    order of the keys is free at these three levels, so this is met by a
    decoder of a text whose encoder has sorted the keys, as
    [json.dumps(..., sort_keys=True)] does. *)
Definition same_entries (ds data : value) : Prop :=
  agree_on plain_keys ds data
  /\ exists c c',
       item "cal" ds = Some c
       /\ item "cal" data = Some c'
       /\ agree_on [] c c'
       /\ forall pol,
            In pol polarizations ->
            exists b b',
              item pol c = Some b
              /\ item pol c' = Some b'
              /\ agree_on (map sfield_name spectral_fields) b b'.

End RidsModel.

Arguments PStr {number} s.

(** ** A concrete set of collaborators

    Used to run the embedding on concrete inputs.  A number is kept as its
    decimal literal; a file holds the JSON value its text denotes (or no JSON
    at all), a compressed file, or a captured spectrum. *)

Module Sample.

Definition is_digit (c : ascii) : bool :=
  let n := nat_of_ascii c in Nat.leb 48 n && Nat.leb n 57.

Definition is_dot (c : ascii) : bool := Ascii.eqb c ".".

(** The literals [float()] accepts here: digits with at most one dot. *)
Definition is_decimal (s : string) : bool :=
  let cs := list_ascii_of_string s in
  forallb (fun c => is_digit c || is_dot c) cs
  && Nat.leb 1 (length (filter is_digit cs))
  && Nat.leb (length (filter is_dot cs)) 1.

Inductive file : Type :=
| Text (v : option (pyval string))
| Gz (f : file)
| Capture (freq val : list string).

(** Peaks are the positions that hold the literal [1]. *)
Fixpoint positions_of_one (i : Z) (val : list string) : list Z :=
  match val with
  | [] => []
  | x :: val' =>
      if String.eqb x "1" then i :: positions_of_one (i + 1) val'
      else positions_of_one (i + 1) val'
  end.

(** File names are [<type>.<polarization>.<time stamp>]. *)
Fixpoint split_on (sep : ascii) (cur : string) (s : string) : list string :=
  match s with
  | EmptyString => [cur]
  | String c s' =>
      if Ascii.eqb c sep then cur :: split_on sep "" s'
      else split_on sep (cur ++ String c "") s'
  end.

Definition collaborators : Collaborators :=
  {| number := string;
     content := file;
     float_of_string := fun s => if is_decimal s then Some s else None;
     str_of_number := fun s => s;
     str_of_container := fun _ => "[...]";
     json_dumps := fun v => Text (Some v);
     fix_json_list := fun t => t;
     json_load := fun t => match t with Text v => v | _ => None end;
     gzip_write := Gz;
     gzip_read := fun c => match c with Gz t => Some t | _ => None end;
     spectrum_reader :=
       fun _ c _ => match c with
                    | Capture freq val => Done (freq, val)
                    | _ => Fail ValueError
                    end;
     peaks_fp := fun val _ _ _ => Done (positions_of_one 0 val);
     peel_type_polarization :=
       fun af => match split_on "." "" af with
                 | [t; p; _] => (t, p)
                 | _ => ("other", "")
                 end;
     peel_time_stamp := last_part "." |}.

Definition fresh : Rids collaborators := new_Rids collaborators PNone.

Definition spectrum (n : nat) : file :=
  Capture (repeat "1.0" n) (repeat "0" 5 ++ "1" :: repeat "0" (n - 6)).

(** Two pairs of captures for polarization E. *)
Definition two_pairs : world collaborators :=
  {| doc := fresh;
     disk := [("d/ave.E.001", spectrum 10); ("d/ave.E.002", spectrum 10);
              ("d/maxh.E.001", spectrum 10); ("d/maxh.E.002", spectrum 10)];
     dirs := ["d"];
     log := [] |}.


(** A file whose JSON text is the empty array. *)
Definition array_file : world collaborators :=
  {| doc := fresh;
     disk := [("x.rids", Text (Some (PList [])))];
     dirs := ["."];
     log := [] |}.

(** A directory [d] without files. *)
Definition empty_world : world collaborators :=
  {| doc := fresh; disk := []; dirs := ["d"]; log := [] |}.

(** No directory [d] at all. *)
Definition no_directory : world collaborators :=
  {| doc := fresh; disk := []; dirs := ["."]; log := [] |}.


(** A file that holds no JSON. *)
Definition malformed_file : world collaborators :=
  {| doc := fresh;
     disk := [("bad.rids", Text None)];
     dirs := ["."];
     log := [] |}.

(** An [ave] capture of three samples next to a [maxh] capture of ten. *)
Definition short_ave : world collaborators :=
  {| doc := fresh;
     disk := [("d/ave.E.001", Capture ["1.0"; "1.0"; "1.0"] ["0"; "0"; "0"]);
              ("d/maxh.E.001", spectrum 10)];
     dirs := ["d"];
     log := [] |}.

(** A [maxh] capture whose frequency axis is shorter than its values. *)
Definition short_freq : world collaborators :=
  {| doc := fresh;
     disk := [("d/ave.E.001", spectrum 10);
              ("d/maxh.E.001",
               Capture ["1.0"]
                       ["0"; "0"; "0"; "0"; "0"; "1"; "0"; "0"; "0"; "0"])];
     dirs := ["d"];
     log := [] |}.

(** A second set of collaborators, whose encoder sorts the keys of every
    object as [json.dumps(..., sort_keys=True)] does. *)
Fixpoint insert_entry (kv : string * pyval string)
         (l : list (string * pyval string)) : list (string * pyval string) :=
  match l with
  | [] => [kv]
  | kv' :: l' =>
      if String.leb (fst kv) (fst kv') then kv :: l
      else kv' :: insert_entry kv l'
  end.

Fixpoint sort_keys (v : pyval string) : pyval string :=
  match v with
  | PList l => PList (map sort_keys l)
  | PDict kvs =>
      PDict (fold_right
               (fun kv acc => insert_entry (fst kv, sort_keys (snd kv)) acc)
               [] kvs)
  | _ => v
  end.

Definition key_sorting : Collaborators :=
  {| number := string;
     content := file;
     float_of_string := float_of_string collaborators;
     str_of_number := str_of_number collaborators;
     str_of_container := str_of_container collaborators;
     json_dumps := fun v => Text (Some (sort_keys v));
     fix_json_list := fix_json_list collaborators;
     json_load := json_load collaborators;
     gzip_write := gzip_write collaborators;
     gzip_read := gzip_read collaborators;
     spectrum_reader := spectrum_reader collaborators;
     peaks_fp := peaks_fp collaborators;
     peel_type_polarization := peel_type_polarization collaborators;
     peel_time_stamp := peel_time_stamp collaborators |}.

Definition calibration (pol : string) : Spectral key_sorting :=
  mkSpectral key_sorting
    (PStr "bench") (PStr pol)
    (PList [PNum "100.0"; PNum "200.0"]) (PList [PNum "1.5"; PNum "2.5"])
    None None.

(** A document with its direct fields and its two calibration records
    set, and nothing else. *)
Definition set_header (d : dattr) : pyval string :=
  match d with
  | instrument => PStr "SA"
  | receiver => PStr "R1"
  | time_stamp => PStr "001"
  | freq_unit => PStr "MHz"
  | val_unit => PStr "dBm"
  end.

Definition set_document : world key_sorting :=
  mkWorld key_sorting
    (mkRids key_sorting set_header (fun _ => PNone) (fun _ => PNone) PNone
            [("E", calibration "E"); ("N", calibration "N")] []
            None None None)
    [] ["."] [].

(** The object [rid_writer] builds for [set_document], and what comes back
    from the text the encoder makes of it. *)
Definition written : pyval string :=
  PDict
    [("comment", PNone); ("instrument", PStr "SA"); ("receiver", PStr "R1");
     ("time_stamp", PStr "001"); ("freq_unit", PStr "MHz");
     ("val_unit", PStr "dBm");
     ("channel_width", PStr "None None"); ("time_constant", PStr "None None");
     ("threshold", PStr "None None"); ("vbw", PStr "None None");
     ("cal",
      PDict
        [("E",
          PDict
            [("comment", PStr "bench"); ("polarization", PStr "E");
             ("freq", PList [PNum "100.0"; PNum "200.0"]);
             ("val", PList [PNum "1.5"; PNum "2.5"])]);
         ("N",
          PDict
            [("comment", PStr "bench"); ("polarization", PStr "N");
             ("freq", PList [PNum "100.0"; PNum "200.0"]);
             ("val", PList [PNum "1.5"; PNum "2.5"])])]);
     ("events", PDict [])].

Definition decoded : pyval string :=
  PDict
    [("cal",
      PDict
        [("E",
          PDict
            [("comment", PStr "bench");
             ("freq", PList [PNum "100.0"; PNum "200.0"]);
             ("polarization", PStr "E");
             ("val", PList [PNum "1.5"; PNum "2.5"])]);
         ("N",
          PDict
            [("comment", PStr "bench");
             ("freq", PList [PNum "100.0"; PNum "200.0"]);
             ("polarization", PStr "N");
             ("val", PList [PNum "1.5"; PNum "2.5"])])]);
     ("channel_width", PStr "None None"); ("comment", PNone);
     ("events", PDict []); ("freq_unit", PStr "MHz");
     ("instrument", PStr "SA"); ("receiver", PStr "R1");
     ("threshold", PStr "None None"); ("time_constant", PStr "None None");
     ("time_stamp", PStr "001"); ("val_unit", PStr "dBm");
     ("vbw", PStr "None None")].

(** The lists of a scan of [two_pairs] and of [three_and_two]. *)
Definition two_pairs_lists : file_lists :=
  mkFiles ["d/ave.E.001"; "d/ave.E.002"] []
          ["d/maxh.E.001"; "d/maxh.E.002"] [].


End Sample.

(** * Properties *)

Section DictFacts.
Context {V : Type}.

Lemma dict_get_set_eq (k : string) (v : V) (d : list (string * V)) :
  dict_get k (dict_set k v d) = Some v.
Proof.
  induction d as [|[k' v'] d IH]; simpl.
  - now rewrite String.eqb_refl.
  - destruct (String.eqb k k') eqn:E; simpl.
    + now rewrite String.eqb_refl.
    + now rewrite E.
Qed.

Lemma dict_get_set_ne (k k0 : string) (v : V) (d : list (string * V)) :
  k0 <> k -> dict_get k0 (dict_set k v d) = dict_get k0 d.
Proof.
  intros Hne. induction d as [|[k' v'] d IH]; simpl.
  - destruct (String.eqb_spec k0 k); [contradiction|reflexivity].
  - destruct (String.eqb_spec k k'); simpl.
    + subst k'. destruct (String.eqb_spec k0 k); [contradiction|reflexivity].
    + now rewrite IH.
Qed.

End DictFacts.

Section OutcomeFacts.
Context {S A : Type}.

(** An outcome is given by its value and its state. *)
Lemma ok_value (o : outcome S A) (a : A) :
  value_of o = Some a -> o = Ok a (state_of o).
Proof. destruct o; simpl; congruence. Qed.

Lemma raise_value (o : outcome S A) (e : exn) :
  raised o = Some e -> o = Raise e (state_of o).
Proof. destruct o; simpl; congruence. Qed.

End OutcomeFacts.

Section StringFacts.

Lemma append_not_empty (cur : string) (c : ascii) :
  String.eqb (cur ++ String c "") "" = false.
Proof. destruct cur; reflexivity. Qed.

Lemma split_from_token (cur s : string) :
  String.eqb cur "" = false -> split_from cur s <> [].
Proof.
  revert cur. induction s as [|c s IH]; intros cur Hcur; simpl.
  - rewrite Hcur. discriminate.
  - destruct (is_space c).
    + rewrite Hcur. discriminate.
    + apply IH, append_not_empty.
Qed.

Lemma split_nil_iff (x : string) : split x = [] <-> all_space x = true.
Proof.
  unfold split. induction x as [|c x IH]; simpl.
  - tauto.
  - destruct (is_space c); simpl.
    + exact IH.
    + split; [|discriminate].
      intros H. exfalso. revert H. apply split_from_token. reflexivity.
Qed.

End StringFacts.

Section UnitSplit.
Context (C : Collaborators).

Lemma uattr_eqb_refl (d : uattr) : uattr_eqb d d = true.
Proof. apply String.eqb_refl. Qed.

Lemma set_uattr_one (d : uattr) (x v0 : string) (st : Rids C) :
  split x = [v0] ->
  _set_uattr C d (PStr x) st
  = Ok tt (set_u_unit C d PNone (set_u_field C d (PStr v0) st)).
Proof. intros H. unfold _set_uattr. rewrite H. reflexivity. Qed.

Lemma set_uattr_many (d : uattr) (x v0 v1 : string) (rest : list string)
      (st : Rids C) :
  split x = v0 :: v1 :: rest ->
  _set_uattr C d (PStr x) st
  = Ok tt (set_u_unit C d (PStr v1)
             (set_u_field C d
                (match float_of_string C v0 with
                 | Some f => PNum f
                 | None => PStr v0
                 end) st)).
Proof. intros H. unfold _set_uattr. rewrite H. reflexivity. Qed.

Lemma u_field_after (d : uattr) (v u : value C) (st : Rids C) :
  u_field C (set_u_unit C d u (set_u_field C d v st)) d = v
  /\ u_unit C (set_u_unit C d u (set_u_field C d v st)) d = u.
Proof. simpl. now rewrite uattr_eqb_refl. Qed.

(** C5: a unit-split field is ingested from one string by splitting it on
    whitespace.  One token: it is the value and the unit is unset.  Several
    tokens: the first, as a number when [float] accepts it and as a string
    otherwise, is the value and the second is the unit.  So ["12.5 MHz"]
    gives the number 12.5 with unit ["MHz"], and ["ongoing maxhold"] the
    string ["ongoing"] with unit ["maxhold"]. *)
Theorem set_uattr_unit_split (d : uattr) (st : Rids C) :
  (forall x v0,
      split x = [v0] ->
      exists st', _set_uattr C d (PStr x) st = Ok tt st'
                  /\ u_field C st' d = PStr v0 /\ u_unit C st' d = PNone)
  /\ (forall x v0 v1 rest,
         split x = v0 :: v1 :: rest ->
         exists st', _set_uattr C d (PStr x) st = Ok tt st'
                     /\ u_field C st' d
                        = match float_of_string C v0 with
                          | Some f => PNum f
                          | None => PStr v0
                          end
                     /\ u_unit C st' d = PStr v1)
  /\ (forall f,
         float_of_string C "12.5" = Some f ->
         exists st', _set_uattr C d (PStr "12.5 MHz") st = Ok tt st'
                     /\ u_field C st' d = PNum f
                     /\ u_unit C st' d = PStr "MHz")
  /\ (float_of_string C "ongoing" = None ->
      exists st', _set_uattr C d (PStr "ongoing maxhold") st = Ok tt st'
                  /\ u_field C st' d = PStr "ongoing"
                  /\ u_unit C st' d = PStr "maxhold").
Proof.
  repeat split.
  - intros x v0 H. eexists. split; [apply set_uattr_one, H|].
    apply u_field_after.
  - intros x v0 v1 rest H. eexists. split; [eapply set_uattr_many, H|].
    apply u_field_after.
  - intros f Hf. eexists. split.
    + apply (set_uattr_many d "12.5 MHz" "12.5" "MHz" []). reflexivity.
    + rewrite Hf. apply u_field_after.
  - intros Hf. eexists. split.
    + apply (set_uattr_many d "ongoing maxhold" "ongoing" "maxhold" []).
      reflexivity.
    + rewrite Hf. apply u_field_after.
Qed.

(** C10: when the split of the input yields no token (the string is empty
    or all whitespace), [_set_uattr] raises [UnboundLocalError] and sets
    neither the field nor its unit, and so do [set] and the reader's body
    when they reach it. *)
Theorem set_uattr_no_token (d : uattr) (x : string) (st : Rids C) :
  all_space x = true ->
  split x = []
  /\ _set_uattr C d (PStr x) st = Raise UnboundLocalError st
  /\ set C [(uattr_name d, PStr x)] st = Raise UnboundLocalError st
  /\ rid_reader_data C (PDict [(uattr_name d, PStr x)]) st
     = Raise UnboundLocalError st.
Proof.
  intros H. apply split_nil_iff in H.
  assert (E : _set_uattr C d (PStr x) st = Raise UnboundLocalError st).
  { unfold _set_uattr. rewrite H. reflexivity. }
  split; [exact H|]. split; [exact E|]. split.
  - destruct d; unfold set; simpl; unfold bind; rewrite H; reflexivity.
  - destruct d; unfold rid_reader_data, if_present; simpl; unfold bind;
      simpl; rewrite H; reflexivity.
Qed.

End UnitSplit.

Section Comments.
Context (C : Collaborators).

(** C9: appending [None] leaves the comment as it is; appending to a
    document without a comment stores the new one as it comes; appending
    a string to a string joins the two with a newline, so ["a"] then
    ["b"] on an empty comment give ["a\nb"]. *)
Theorem append_comment_accumulates (st : Rids C) :
  append_comment C PNone st = Ok tt st
  /\ (forall c,
         comment C st = PNone ->
         exists st', append_comment C c st = Ok tt st'
                     /\ comment C st' = c)
  /\ (forall s0 s,
         comment C st = PStr s0 ->
         append_comment C (PStr s) st
         = Ok tt (set_comment C (PStr (s0 ++ nl ++ s)) st))
  /\ (comment C st = PNone ->
      exists st',
        (append_comment C (PStr "a") ;;; append_comment C (PStr "b")) st
        = Ok tt st'
        /\ comment C st' = PStr ("a" ++ nl ++ "b")).
Proof.
  repeat split.
  - intros c H. unfold append_comment. rewrite H.
    destruct c; eexists; (split; [reflexivity|]); simpl; auto.
  - intros s0 s H. unfold append_comment. rewrite H. reflexivity.
  - intros H. unfold bind, append_comment. rewrite H. simpl.
    eexists. split; reflexivity.
Qed.

End Comments.

Section Events.
Context (C : Collaborators).

Lemma np_index_in_bounds {A} (l : list A) (i : Z) :
  np_index l i <> None <-> in_bounds l i.
Proof.
  unfold np_index, in_bounds.
  destruct (0 <=? i)%Z eqn:E0.
  - rewrite nth_error_Some. apply Z.leb_le in E0. lia.
  - apply Z.leb_gt in E0.
    destruct (- Z.of_nat (length l) <=? i)%Z eqn:E1.
    + rewrite nth_error_Some. apply Z.leb_le in E1. lia.
    + apply Z.leb_gt in E1. split; [congruence|lia].
Qed.

Lemma np_take_in_bounds {A} (l : list A) (idx : list Z) :
  np_take l idx <> None <-> Forall (in_bounds l) idx.
Proof.
  induction idx as [|i idx IH]; simpl.
  - split; [constructor|discriminate].
  - pose proof (np_index_in_bounds l i) as Hi.
    destruct (np_index l i) eqn:Ei.
    + destruct (np_take l idx) eqn:Et.
      * split; [|discriminate]. intros _. constructor.
        -- apply Hi. discriminate.
        -- apply IH. discriminate.
      * split; [congruence|]. intros H. inversion H as [|? ? H2 H3]; subst.
        apply IH in H3. congruence.
    + split; [congruence|]. intros H. inversion H as [|? ? H2 H3]; subst.
      apply Hi in H2. congruence.
Qed.

Lemma np_take_some {A} (l : list A) (idx : list Z) :
  Forall (in_bounds l) idx -> exists sel, np_take l idx = Some sel.
Proof.
  intros H. apply np_take_in_bounds in H.
  destruct (np_take l idx) as [sel|]; [now exists sel|congruence].
Qed.

Lemma np_take_none {A} (l : list A) (idx : list Z) :
  ~ Forall (in_bounds l) idx -> np_take l idx = None.
Proof.
  intros H. destruct (np_take l idx) eqn:E; [|reflexivity].
  exfalso. apply H, np_take_in_bounds. congruence.
Qed.

Lemma read_spectrum_ok (fn pol : string) (w : world C) c fv :
  dict_get fn (disk C w) = Some c ->
  spectrum_reader C fn c pol = Done fv ->
  read_spectrum C fn pol w = Ok fv w.
Proof. intros Hc Hr. unfold read_spectrum. now rewrite Hc, Hr. Qed.

Lemma set_event_field_ok (event : string) (v : sfield) (x : value C)
      (r : Rids C) (sp : Spectral C) :
  dict_get event (events C r) = Some sp ->
  set_event_field C event v x r
  = Ok tt (set_events C
             (dict_set event (spectral_setattr C v x sp) (events C r)) r).
Proof.
  intros H. unfold set_event_field, bind, get_state, setattr_in.
  rewrite H. reflexivity.
Qed.

(** What [get_event] leaves outside the document. *)
Lemma get_event_ok_world (event ave_fn maxhold_fn pol : string)
      (w w' : world C) :
  get_event C event ave_fn maxhold_fn pol w = Ok tt w' ->
  disk C w' = disk C w
  /\ log C w' = (log C w ++ [ABuild event ave_fn maxhold_fn])%list.
Proof.
  unfold get_event, bind, read_spectrum, on_doc, tell, modify.
  destruct (dict_get ave_fn (disk C w)); [|discriminate].
  destruct (spectrum_reader C ave_fn _ pol); [|discriminate].
  destruct (dict_get maxhold_fn (disk C w)); [|discriminate].
  destruct (spectrum_reader C maxhold_fn _ pol); [|discriminate].
  simpl. destruct (build_event C event pol _ _ (doc C w)); [|discriminate].
  simpl. intros H. inversion H; subst. simpl. auto.
Qed.

(** C6: for an event whose lowercased name contains ["baseline"], the
    stored [freq] is [ave.freq] when that is strictly longer than
    [maxhold.freq] and [maxhold.freq] otherwise (so also on a tie), [ave]
    is [ave.val] and [maxhold] is [maxhold.val] as read, and the peak
    finder's fields are not touched. *)
Theorem get_event_baseline (event ave_fn maxhold_fn pol : string)
        (w : world C) (ca cm : content C)
        (ave maxhold : list (number C) * list (number C)) :
  is_baseline event = true ->
  dict_get ave_fn (disk C w) = Some ca ->
  spectrum_reader C ave_fn ca pol = Done ave ->
  dict_get maxhold_fn (disk C w) = Some cm ->
  spectrum_reader C maxhold_fn cm pol = Done maxhold ->
  exists w' ev,
    get_event C event ave_fn maxhold_fn pol w = Ok tt w'
    /\ dict_get event (events C (doc C w')) = Some ev
    /\ (length (fst maxhold) < length (fst ave) ->
        sp_freq C ev = numbers C (fst ave))
    /\ (length (fst ave) <= length (fst maxhold) ->
        sp_freq C ev = numbers C (fst maxhold))
    /\ sp_ave C ev = Some (numbers C (snd ave))
    /\ sp_maxhold C ev = Some (numbers C (snd maxhold))
    /\ hipk C (doc C w') = hipk C (doc C w)
    /\ hipk_freq C (doc C w') = hipk_freq C (doc C w)
    /\ hipk_val C (doc C w') = hipk_val C (doc C w).
Proof.
  intros Hb Ha Hra Hm Hrm.
  unfold get_event, bind.
  rewrite (read_spectrum_ok _ _ _ _ _ Ha Hra).
  rewrite (read_spectrum_ok _ _ _ _ _ Hm Hrm).
  unfold on_doc, build_event. rewrite Hb. unfold bind at 1. unfold modify at 1.
  unfold bind.
  erewrite set_event_field_ok by (simpl; apply dict_get_set_eq).
  erewrite set_event_field_ok by (simpl; apply dict_get_set_eq).
  erewrite set_event_field_ok by (simpl; apply dict_get_set_eq).
  unfold tell, modify. simpl.
  eexists. eexists. split; [reflexivity|]. simpl.
  split; [apply dict_get_set_eq|]. simpl.
  repeat split.
  - intros H. apply Nat.ltb_lt in H. now rewrite H.
  - intros H. apply Nat.ltb_ge in H. now rewrite H.
Qed.

(** C4: for an event whose name does not contain ["baseline"], with [P]
    the indices the peak finder returns (all of them valid for the two
    maxhold arrays): [freq] and [maxhold] are [maxhold.freq] and
    [maxhold.val] selected at [P]; [ave] is [ave.val] selected at [P] when
    every index of [P] is within the bounds of [ave.val], and is left
    unset otherwise; no error is raised either way. *)
Theorem get_event_peak (event ave_fn maxhold_fn pol : string)
        (w : world C) (ca cm : content C)
        (ave maxhold : list (number C) * list (number C)) (P : list Z) :
  is_baseline event = false ->
  dict_get ave_fn (disk C w) = Some ca ->
  spectrum_reader C ave_fn ca pol = Done ave ->
  dict_get maxhold_fn (disk C w) = Some cm ->
  spectrum_reader C maxhold_fn cm pol = Done maxhold ->
  peaks_fp C (snd maxhold) (u_field C (doc C w) threshold)
           cwt_range rc_range = Done P ->
  Forall (in_bounds (fst maxhold)) P ->
  Forall (in_bounds (snd maxhold)) P ->
  exists w' ev fr mx,
    get_event C event ave_fn maxhold_fn pol w = Ok tt w'
    /\ dict_get event (events C (doc C w')) = Some ev
    /\ np_take (fst maxhold) P = Some fr
    /\ sp_freq C ev = numbers C fr
    /\ np_take (snd maxhold) P = Some mx
    /\ sp_maxhold C ev = Some (numbers C mx)
    /\ (Forall (in_bounds (snd ave)) P ->
        exists av, np_take (snd ave) P = Some av
                   /\ sp_ave C ev = Some (numbers C av))
    /\ (~ Forall (in_bounds (snd ave)) P -> sp_ave C ev = None).
Proof.
  intros Hb Ha Hra Hm Hrm Hpk Hfr Hmx.
  destruct (np_take_some _ _ Hfr) as [fr Efr].
  destruct (np_take_some _ _ Hmx) as [mx Emx].
  unfold get_event, bind.
  rewrite (read_spectrum_ok _ _ _ _ _ Ha Hra).
  rewrite (read_spectrum_ok _ _ _ _ _ Hm Hrm).
  unfold on_doc, build_event. rewrite Hb.
  unfold peak_finder, bind, modify, get_state, lift. simpl.
  rewrite Hpk. unfold ret. simpl. rewrite Efr.
  erewrite set_event_field_ok by (simpl; apply dict_get_set_eq).
  destruct (np_take (snd ave) P) as [av|] eqn:Eav.
  - erewrite set_event_field_ok by (simpl; apply dict_get_set_eq).
    rewrite Emx.
    erewrite set_event_field_ok by (simpl; apply dict_get_set_eq).
    unfold tell, modify. simpl.
    do 4 eexists. split; [reflexivity|]. simpl.
    split; [apply dict_get_set_eq|]. simpl.
    repeat (split; [reflexivity|]). split.
    + intros _. exists av. split; reflexivity.
    + intros H. exfalso. apply H, np_take_in_bounds. congruence.
  - unfold ret. rewrite Emx.
    erewrite set_event_field_ok by (simpl; apply dict_get_set_eq).
    unfold tell, modify. simpl.
    do 4 eexists. split; [reflexivity|]. simpl.
    split; [apply dict_get_set_eq|]. simpl.
    repeat (split; [reflexivity|]). split.
    + intros H. apply np_take_in_bounds in H. congruence.
    + intros _. reflexivity.
Qed.

End Events.

Section RemoveFacts.
Context {V : Type}.

Lemma dict_get_remove_eq (k : string) (d : list (string * V)) :
  dict_get k (dict_remove k d) = None.
Proof.
  induction d as [|[k' v] d IH]; simpl; [reflexivity|].
  destruct (String.eqb k k') eqn:E; [exact IH|]. simpl. now rewrite E.
Qed.

Lemma dict_get_remove_none (k k' : string) (d : list (string * V)) :
  dict_get k d = None -> dict_get k (dict_remove k' d) = None.
Proof.
  induction d as [|[k0 v] d IH]; simpl; [reflexivity|].
  destruct (String.eqb k k0) eqn:E; [discriminate|]. intros H.
  destruct (String.eqb k' k0); [auto|]. simpl. rewrite E. auto.
Qed.

Lemma dict_get_not_in (k : string) (d : list (string * V)) :
  ~ In k (map fst d) -> dict_get k d = None.
Proof.
  induction d as [|[k0 v] d IH]; simpl; [reflexivity|]. intros H.
  destruct (String.eqb_spec k k0); [subst; tauto|]. apply IH. tauto.
Qed.

Lemma dict_remove_not_in (k : string) (d : list (string * V)) :
  ~ In k (map fst d) -> dict_remove k d = d.
Proof.
  induction d as [|[k0 v] d IH]; simpl; [reflexivity|]. intros H.
  destruct (String.eqb_spec k k0); [subst; tauto|]. f_equal. apply IH. tauto.
Qed.

Lemma dict_remove_keys (k k0 : string) (d : list (string * V)) :
  In k0 (map fst (dict_remove k d)) -> In k0 (map fst d).
Proof.
  induction d as [|[k1 v] d IH]; simpl; [tauto|].
  destruct (String.eqb k k1); simpl; tauto.
Qed.

Lemma dict_remove_nodup (k : string) (d : list (string * V)) :
  NoDup (map fst d) -> NoDup (map fst (dict_remove k d)).
Proof.
  induction d as [|[k1 v] d IH]; simpl; [auto|]. intros H.
  inversion H as [|? ? Hn Hd]; subst.
  destruct (String.eqb k k1); [auto|]. simpl. constructor; [|auto].
  intros Hin. apply Hn. eapply dict_remove_keys, Hin.
Qed.

(** Removing a file that is there makes the disk one file smaller. *)
Lemma dict_remove_length (k : string) (d : list (string * V)) :
  NoDup (map fst d) -> dict_get k d <> None ->
  S (length (dict_remove k d)) = length d.
Proof.
  induction d as [|[k1 v] d IH]; simpl; [congruence|]. intros H Hk.
  inversion H as [|? ? Hn Hd]; subst.
  destruct (String.eqb_spec k k1).
  - subst. now rewrite dict_remove_not_in.
  - simpl. f_equal. apply IH; assumption.
Qed.

End RemoveFacts.

Section Pipeline.
Context (C : Collaborators).

Lemma os_remove_ok (path : string) (w w' : world C) :
  os_remove C path w = Ok tt w' ->
  dict_get path (disk C w) <> None
  /\ w' = mkWorld C (doc C w) (dict_remove path (disk C w)) (dirs C w)
                  (log C w ++ [ARemove path]).
Proof.
  unfold os_remove. destruct (dict_get path (disk C w)); [|discriminate].
  intros H. inversion H. split; [discriminate|reflexivity].
Qed.

(** One pair: its event is built, then its two files are removed. *)
Lemma process_pair_ok (pol : string) (am : string * string) (w w' : world C) :
  process_pair C pol am w = Ok tt w' ->
  disk C w' = remove_pairs C [am] (disk C w)
  /\ log C w' = (log C w ++ pair_actions C pol [am])%list
  /\ dict_get (fst am) (disk C w) <> None
  /\ dict_get (snd am) (dict_remove (fst am) (disk C w)) <> None.
Proof.
  unfold process_pair, bind.
  destruct (get_event C _ (fst am) (snd am) pol w) as [[] w1|] eqn:E1;
    [|discriminate].
  apply get_event_ok_world in E1. destruct E1 as [Hd1 Hl1].
  destruct (os_remove C (fst am) w1) as [[] w2|] eqn:E2; [|discriminate].
  apply os_remove_ok in E2. destruct E2 as [Hp2 ->].
  intros E3. apply os_remove_ok in E3. destruct E3 as [Hp3 ->].
  simpl in *. rewrite Hd1 in *. rewrite Hl1.
  repeat split; try assumption.
  now rewrite <- !app_assoc.
Qed.

Lemma for_each_pairs_ok (pol : string) (pairs : list (string * string)) :
  forall w w' : world C,
    NoDup (map fst (disk C w)) ->
    for_each pairs (process_pair C pol) w = Ok tt w' ->
    disk C w' = remove_pairs C pairs (disk C w)
    /\ log C w' = (log C w ++ pair_actions C pol pairs)%list
    /\ length (disk C w') + 2 * length pairs = length (disk C w)
    /\ NoDup (map fst (disk C w')).
Proof.
  induction pairs as [|am pairs IH]; intros w w' Hnd; simpl.
  - unfold ret. intros H. inversion H; subst.
    rewrite app_nil_r. repeat split; auto.
  - unfold bind.
    destruct (process_pair C pol am w) as [[] w1|] eqn:E1; [|discriminate].
    apply process_pair_ok in E1. destruct E1 as (Hd & Hl & Ha & Hm).
    simpl in Hd, Hl. intros E2.
    assert (Hnd1 : NoDup (map fst (disk C w1))).
    { rewrite Hd. now apply dict_remove_nodup, dict_remove_nodup. }
    destruct (IH _ _ Hnd1 E2) as (Hd' & Hl' & Hlen & Hnd').
    pose proof (dict_remove_length (fst am) (disk C w) Hnd Ha) as L1.
    pose proof (dict_remove_length (snd am) _
                  (dict_remove_nodup (fst am) _ Hnd) Hm) as L2.
    split; [|split; [|split]].
    + now rewrite Hd', Hd.
    + now rewrite Hl', Hl, <- app_assoc.
    + rewrite Hd in Hlen. simpl in Hlen.
      change (length (am :: pairs)) with (S (length pairs)). lia.
    + exact Hnd'.
Qed.

Lemma remove_pairs_keeps_none (k : string)
      (pairs : list (string * string)) :
  forall d : disk_t C,
    dict_get k d = None -> dict_get k (remove_pairs C pairs d) = None.
Proof.
  induction pairs as [|am pairs IH]; intros d H; simpl; [exact H|].
  apply IH. now apply dict_get_remove_none, dict_get_remove_none.
Qed.

(** The files of the pairs are gone from the disk. *)
Lemma remove_pairs_gone (pairs : list (string * string)) :
  forall (d : disk_t C) (a m : string),
    In (a, m) pairs ->
    dict_get a (remove_pairs C pairs d) = None
    /\ dict_get m (remove_pairs C pairs d) = None.
Proof.
  induction pairs as [|am pairs IH]; intros d a m Hin; [destruct Hin|].
  destruct Hin as [->|Hin]; [|now apply IH].
  simpl. split; apply remove_pairs_keeps_none.
  - apply dict_get_remove_none, dict_get_remove_eq.
  - apply dict_get_remove_eq.
Qed.

Lemma firstn_length_self {A} (n : nat) (l : list A) :
  firstn n l = firstn (length (firstn n l)) l.
Proof.
  rewrite length_firstn. destruct (Nat.le_ge_cases n (length l)).
  - now rewrite Nat.min_l.
  - rewrite Nat.min_r by assumption.
    now rewrite firstn_all, firstn_all2.
Qed.

Lemma batch_positional (obs_per_file : Z) (la lm : list string) :
  length la = length lm ->
  batch obs_per_file la lm
  = firstn (length (batch obs_per_file la lm)) (combine la lm).
Proof.
  intros Hlen. unfold batch, slice_to. rewrite <- Hlen.
  destruct (0 <=? obs_per_file)%Z; rewrite <- combine_firstn;
    apply firstn_length_self.
Qed.

Lemma batch_length (obs_per_file : Z) (la lm : list string) :
  length la = length lm -> (0 <= obs_per_file)%Z ->
  length (batch obs_per_file la lm)
  = Nat.min (Z.to_nat obs_per_file) (length la).
Proof.
  intros Hlen Hobs. unfold batch, slice_to.
  apply Z.leb_le in Hobs. rewrite Hobs.
  rewrite length_combine, !length_firstn. lia.
Qed.

Lemma batch_starts (obs_per_file : Z) (a0 m0 : string) (la lm : list string) :
  (0 < obs_per_file)%Z ->
  exists rest, batch obs_per_file (a0 :: la) (m0 :: lm) = (a0, m0) :: rest.
Proof.
  intros Hobs. unfold batch, slice_to.
  assert (E : (0 <=? obs_per_file)%Z = true) by (apply Z.leb_le; lia).
  rewrite E. destruct (Z.to_nat obs_per_file) as [|n] eqn:En; [lia|].
  simpl. eexists. reflexivity.
Qed.

Lemma set_time_stamp_ok (x : value C) (w : world C) :
  on_doc C (set C [("time_stamp", x)]) w
  = Ok tt (mkWorld C (set_d_field C time_stamp x (doc C w))
                   (disk C w) (dirs C w) (log C w)).
Proof. reflexivity. Qed.

(** C1, as the code has it: with equal-length non-empty lists, the baseline
    event is built from the first pair and nothing is deleted at that step;
    then the pairs of the batch, taken positionally from the first pair on
    (the baseline pair included), are each built as a peak event and
    deleted.  A pass that builds N peak events removes exactly the N [ave]
    and N [maxh] files of those pairs; when [obs_per_file] is positive the
    baseline pair's files are among them. *)
Theorem process_pol_consumes (obs_per_file : Z) (f : file_lists)
        (pol : string) (la lm : list string) (w w' : world C) :
  f_get "ave" pol f = Some la ->
  f_get "maxh" pol f = Some lm ->
  la <> [] ->
  length la = length lm ->
  NoDup (map fst (disk C w)) ->
  process_pol C obs_per_file f pol w = Ok tt w' ->
  exists a0 m0 la' lm',
    la = a0 :: la' /\ lm = m0 :: lm'
    /\ log C w'
       = (log C w ++ ABuild ("baseline_" ++ pol) a0 m0
                  :: pair_actions C pol (batch obs_per_file la lm))%list
    /\ batch obs_per_file la lm
       = firstn (length (batch obs_per_file la lm)) (combine la lm)
    /\ ((0 <= obs_per_file)%Z ->
        length (batch obs_per_file la lm)
        = Nat.min (Z.to_nat obs_per_file) (length la))
    /\ disk C w' = remove_pairs C (batch obs_per_file la lm) (disk C w)
    /\ length (disk C w') + 2 * length (batch obs_per_file la lm)
       = length (disk C w)
    /\ (forall a m,
          In (a, m) (batch obs_per_file la lm) ->
          dict_get a (disk C w') = None /\ dict_get m (disk C w') = None)
    /\ ((0 < obs_per_file)%Z ->
        dict_get a0 (disk C w') = None /\ dict_get m0 (disk C w') = None).
Proof.
  intros Hfa Hfm Hne Hlen Hnd.
  destruct la as [|a0 la']; [congruence|].
  destruct lm as [|m0 lm']; [discriminate|].
  unfold process_pol. rewrite Hfa, Hfm.
  assert (E : Nat.eqb (length (a0 :: la')) (length (m0 :: lm')) = true)
    by now apply Nat.eqb_eq.
  rewrite E. cbn [length Nat.eqb orb negb].
  unfold bind at 1. rewrite set_time_stamp_ok.
  unfold bind at 1.
  destruct (get_event C _ a0 m0 pol _) as [[] w1|] eqn:E1; [|discriminate].
  apply get_event_ok_world in E1. simpl in E1. destruct E1 as [Hd1 Hl1].
  intros E2. fold (batch obs_per_file (a0 :: la') (m0 :: lm')) in E2.
  assert (Hnd1 : NoDup (map fst (disk C w1))) by now rewrite Hd1.
  destruct (for_each_pairs_ok pol _ _ _ Hnd1 E2) as (Hd & Hl & Hn & _).
  rewrite Hd1 in Hd, Hn. rewrite Hl1 in Hl.
  exists a0, m0, la', lm'.
  split; [reflexivity|]. split; [reflexivity|].
  split; [now rewrite Hl, <- app_assoc|].
  split; [now apply batch_positional|].
  split; [intros H0; now apply batch_length|].
  split; [exact Hd|]. split; [exact Hn|]. split.
  - intros a m Hin. rewrite Hd. now apply remove_pairs_gone.
  - intros Hpos. destruct (batch_starts obs_per_file a0 m0 la' lm' Hpos)
      as [rest Hrest].
    rewrite Hd. apply remove_pairs_gone. rewrite Hrest. now left.
Qed.

(** ** Skipped polarizations *)



Lemma classify_loop (directory : string) (available_files : list string) :
  forall (f0 : file_lists) (l0 : bool) (f : file_lists) (lp : bool),
    classify C directory available_files f0 l0 = Done (f, lp) ->
    lp = l0 || existsb (is_capture C) available_files.
Proof.
  induction available_files as [|af rest IH]; intros f0 l0 f lp; simpl.
  - intros H. inversion H; subst. now rewrite orb_false_r.
  - unfold is_capture at 1.
    destruct (qualifies (fst (peel_type_polarization C af))).
    + destruct (f_append _ _ _ f0) as [f'|]; [|discriminate].
      intros H. apply IH in H. rewrite H. simpl. now rewrite orb_true_r.
    + intros H. apply IH in H. now rewrite H.
Qed.

Lemma writer_ds_ok (r : Rids C) :
  has_cal C r = true -> exists ds, writer_ds C r = Done ds.
Proof.
  unfold has_cal, dict_has, writer_ds, writer_cal. simpl.
  destruct (dict_get "E" (cal C r)); [|discriminate].
  destruct (dict_get "N" (cal C r)); [|discriminate].
  intros _. simpl. eexists. reflexivity.
Qed.


(** One cycle, step by step. *)
Lemma scan_cycle_steps (directory : string) (obs_per_file : Z)
      (w : world C) :
  scan_cycle C directory obs_per_file w
  = match os_listdir C directory (dirs C w) (disk C w) with
    | Fail e => Raise e (after_scan C directory w)
    | Done names =>
        match classify C directory (sorted names) no_files false with
        | Fail e => Raise e (after_scan C directory w)
        | Done fl =>
            match process_pol C obs_per_file (fst fl) "E"
                              (after_scan C directory w) with
            | Raise e w1 => Raise e w1
            | Ok _ w1 =>
                match process_pol C obs_per_file (fst fl) "N" w1 with
                | Raise e w2 => Raise e w2
                | Ok _ w2 =>
                    match rid_writer C (output_file C directory w2) true w2
                    with
                    | Raise e w3 => Raise e w3
                    | Ok _ w3 => Ok (snd fl) w3
                    end
                end
            end
        end
    end.
Proof.
  unfold scan_cycle, polarizations, tell, modify, get_state, after_scan.
  simpl for_each. unfold bind. simpl.
  destruct (os_listdir C directory (dirs C w) (disk C w)) as [names|e];
    [|reflexivity].
  simpl.
  destruct (classify C directory _ no_files false) as [fl|e];
    [|reflexivity].
  simpl.
  destruct (process_pol C obs_per_file (fst fl) "E" _) as [[] w1|];
    [|reflexivity].
  destruct (process_pol C obs_per_file (fst fl) "N" w1) as [[] w2|];
    [|reflexivity].
  unfold ret at 1. unfold output_file.
  destruct (rid_writer C _ true w2) as [[] w3|]; reflexivity.
Qed.


(** ** The loop *)

Lemma scans_app (l1 l2 : list action) :
  scans (l1 ++ l2) = scans l1 + scans l2.
Proof. unfold scans. now rewrite filter_app, length_app. Qed.

Lemma quiet_ret {A} (a : A) : quiet C (ret a).
Proof. intros w. reflexivity. Qed.

Lemma quiet_raise {A} (e : exn) : quiet C (@raise _ A e).
Proof. intros w. reflexivity. Qed.

Lemma quiet_lift {A} (r : result A) : quiet C (lift r).
Proof. destruct r; intros w; reflexivity. Qed.

Lemma quiet_bind {A B} (m : M (world C) A) (k : A -> M (world C) B) :
  quiet C m -> (forall a, quiet C (k a)) -> quiet C (bind m k).
Proof.
  intros Hm Hk w. unfold bind. specialize (Hm w).
  destruct (m w) as [a w1|e w1]; simpl in *.
  - now rewrite Hk.
  - exact Hm.
Qed.

Lemma quiet_for_each {A} (l : list A) (body : A -> M (world C) unit) :
  (forall x, quiet C (body x)) -> quiet C (for_each l body).
Proof.
  intros Hb. induction l as [|x l IH]; simpl.
  - apply quiet_ret.
  - apply quiet_bind; auto.
Qed.

Lemma quiet_on_doc {A} (m : M (Rids C) A) : quiet C (on_doc C m).
Proof. intros w. unfold on_doc. destruct (m (doc C w)); reflexivity. Qed.

Lemma quiet_get_state : quiet C get_state.
Proof. intros w. reflexivity. Qed.

Lemma quiet_tell (a : action) :
  scans [a] = 0 -> quiet C (tell C a).
Proof.
  intros Ha w. unfold tell, modify. cbn [state_of log].
  rewrite scans_app, Ha. lia.
Qed.

Lemma quiet_read_spectrum (fn pol : string) :
  quiet C (read_spectrum C fn pol).
Proof.
  intros w. unfold read_spectrum.
  destruct (dict_get fn (disk C w)); [|reflexivity].
  destruct (spectrum_reader C fn _ pol); reflexivity.
Qed.

Lemma quiet_get_event (event ave_fn maxhold_fn pol : string) :
  quiet C (get_event C event ave_fn maxhold_fn pol).
Proof.
  unfold get_event.
  apply quiet_bind; [apply quiet_read_spectrum|intros ave].
  apply quiet_bind; [apply quiet_read_spectrum|intros maxhold].
  apply quiet_bind; [apply quiet_on_doc|intros _].
  now apply quiet_tell.
Qed.

Lemma quiet_os_remove (path : string) : quiet C (os_remove C path).
Proof.
  intros w. unfold os_remove.
  destruct (dict_get path (disk C w)); [|reflexivity].
  cbn [state_of log]. rewrite scans_app. cbn. lia.
Qed.

Lemma quiet_process_pol (obs_per_file : Z) (f : file_lists) (pol : string) :
  quiet C (process_pol C obs_per_file f pol).
Proof.
  unfold process_pol.
  destruct (f_get "ave" pol f) as [la|]; [|apply quiet_raise].
  destruct (f_get "maxh" pol f) as [lm|]; [|apply quiet_raise].
  destruct (_ || _); [apply quiet_ret|].
  destruct (negb _); [apply quiet_ret|].
  destruct la as [|a0 la]; [apply quiet_raise|].
  destruct lm as [|m0 lm]; [apply quiet_raise|].
  apply quiet_bind; [apply quiet_on_doc|intros _].
  apply quiet_bind; [apply quiet_get_event|intros _].
  apply quiet_for_each. intros am. unfold process_pair.
  apply quiet_bind; [apply quiet_get_event|intros _].
  apply quiet_bind; [apply quiet_os_remove|intros _].
  apply quiet_os_remove.
Qed.

Lemma quiet_rid_writer (filename : string) (fix_list : bool) :
  quiet C (rid_writer C filename fix_list).
Proof.
  unfold rid_writer.
  apply quiet_bind; [apply quiet_get_state|intros w0].
  apply quiet_bind; [apply quiet_lift|intros ds].
  apply quiet_bind; [intros w; reflexivity|intros _].
  now apply quiet_tell.
Qed.

(** Every cycle lists the directory once. *)
Lemma scan_cycle_scans (directory : string) (obs_per_file : Z)
      (w : world C) :
  scans (log C (state_of (scan_cycle C directory obs_per_file w)))
  = S (scans (log C w)).
Proof.
  unfold scan_cycle. unfold bind at 1. unfold tell at 1, modify at 1.
  match goal with
  | |- scans (log C (state_of (?rest ?w1))) = _ =>
      assert (Hq : quiet C rest)
  end.
  { apply quiet_bind; [apply quiet_get_state|intros w0].
    apply quiet_bind; [apply quiet_lift|intros names].
    apply quiet_bind; [apply quiet_lift|intros fl].
    apply quiet_bind;
      [apply quiet_for_each; intros pol; apply quiet_process_pol|intros _].
    apply quiet_bind; [apply quiet_get_state|intros w1].
    apply quiet_bind; [apply quiet_rid_writer|intros _].
    apply quiet_ret. }
  rewrite Hq. cbn [state_of log]. rewrite scans_app. cbn. lia.
Qed.

Lemma scan_cycle_flag (directory : string) (obs_per_file : Z)
      (w w' : world C) (lp : bool) :
  scan_cycle C directory obs_per_file w = Ok lp w' ->
  exists names,
    os_listdir C directory (dirs C w) (disk C w) = Done names
    /\ lp = existsb (is_capture C) (sorted names).
Proof.
  rewrite scan_cycle_steps.
  destruct (os_listdir C directory (dirs C w) (disk C w)) as [names|];
    [|discriminate].
  destruct (classify C directory _ no_files false) as [[f l]|] eqn:E;
    [|discriminate].
  apply classify_loop in E. simpl in E. simpl.
  destruct (process_pol C obs_per_file f "E" _) as [[] w1|]; [|discriminate].
  destruct (process_pol C obs_per_file f "N" w1) as [[] w2|]; [|discriminate].
  destruct (rid_writer C _ true w2) as [[] w3|]; [|discriminate].
  intros H. inversion H; subst. exists names. split; reflexivity.
Qed.

Lemma while_loop_bound (directory : string) (obs_per_file max_loops : Z) :
  forall (fuel : nat) (ctr : Z) (w : world C),
    Z.to_nat (max_loops - ctr) < fuel ->
    (forall w',
        while_loop C fuel directory obs_per_file max_loops ctr w
        <> Ok OutOfFuel w')
    /\ scans (log C (state_of (while_loop C fuel directory obs_per_file
                                         max_loops ctr w)))
       <= scans (log C w) + Z.to_nat (max_loops - ctr).
Proof.
  induction fuel as [|fuel IH]; intros ctr w Hfuel; [lia|].
  simpl. destruct (max_loops <? ctr + 1)%Z eqn:Eb.
  - split; [discriminate|]. simpl. lia.
  - apply Z.ltb_ge in Eb. unfold bind.
    pose proof (scan_cycle_scans directory obs_per_file w) as Hs.
    destruct (scan_cycle C directory obs_per_file w) as [lp w1|e w1];
      simpl in Hs.
    + destruct lp.
      * destruct (IH (ctr + 1)%Z w1) as [Hn Hb]; [lia|].
        split; [exact Hn|]. rewrite Hs in Hb. lia.
      * split; [discriminate|]. simpl. lia.
    + split; [discriminate|]. simpl. lia.
Qed.

Lemma while_loop_fuel (directory : string) (obs_per_file max_loops : Z) :
  forall (fuel1 fuel2 : nat) (ctr : Z) (w : world C),
    Z.to_nat (max_loops - ctr) < fuel1 ->
    Z.to_nat (max_loops - ctr) < fuel2 ->
    while_loop C fuel1 directory obs_per_file max_loops ctr w
    = while_loop C fuel2 directory obs_per_file max_loops ctr w.
Proof.
  induction fuel1 as [|fuel1 IH]; intros fuel2 ctr w H1 H2; [lia|].
  destruct fuel2 as [|fuel2]; [lia|].
  simpl. destruct (max_loops <? ctr + 1)%Z eqn:Eb; [reflexivity|].
  apply Z.ltb_ge in Eb. unfold bind.
  destruct (scan_cycle C directory obs_per_file w) as [lp w1|e w1];
    [|reflexivity].
  destruct lp; [|reflexivity]. apply IH; lia.
Qed.

(** C8: [process_files] ends for every directory and every [max_loops]: the
    embedding never runs out of fuel (any larger fuel gives the same
    result), it lists the directory at most [max_loops] times, and the loop
    is left right after a cycle that found no [ave] or [maxh] file. *)
Theorem process_files_terminates (directory : string)
        (obs_per_file max_loops : Z) (w : world C) :
  (forall fuel,
      S (Z.to_nat max_loops) <= fuel ->
      process_files_fuel C fuel directory obs_per_file max_loops w
      = process_files C directory obs_per_file max_loops w)
  /\ (forall w',
        process_files C directory obs_per_file max_loops w
        <> Ok OutOfFuel w')
  /\ scans (log C (state_of (process_files C directory obs_per_file
                                          max_loops w)))
     <= scans (log C w) + Z.to_nat max_loops
  /\ (forall fuel ctr w0 w1 lp,
        scan_cycle C directory obs_per_file w0 = Ok lp w1 ->
        (exists names,
            os_listdir C directory (dirs C w0) (disk C w0) = Done names
            /\ lp = existsb (is_capture C) (sorted names))
        /\ (lp = false ->
            (ctr + 1 <= max_loops)%Z ->
            while_loop C (S fuel) directory obs_per_file max_loops ctr w0
            = Ok Finished w1)).
Proof.
  unfold process_files, process_files_fuel.
  assert (Hf : Z.to_nat (max_loops - 0) < S (Z.to_nat max_loops))
    by (rewrite Z.sub_0_r; lia).
  destruct (while_loop_bound directory obs_per_file max_loops _ 0%Z w Hf)
    as [Hn Hb].
  split; [|split; [exact Hn|split]].
  - intros fuel Hfuel. apply while_loop_fuel; rewrite Z.sub_0_r; lia.
  - rewrite Z.sub_0_r in Hb. exact Hb.
  - intros fuel ctr w0 w1 lp Hc. split.
    + eapply scan_cycle_flag, Hc.
    + intros -> Hctr. simpl.
      assert (E : (max_loops <? ctr + 1)%Z = false) by (apply Z.ltb_ge; lia).
      rewrite E. unfold bind. rewrite Hc. reflexivity.
Qed.

End Pipeline.

Section Reader.
Context (C : Collaborators).

Lemma rid_reader_data_not_object (data : value C) (st : Rids C) :
  is_object C data = false ->
  rid_reader_data C data st
  = if trips C data then Raise TypeError st else Ok tt st.
Proof.
  destruct data as [| b | x | s | l | kvs]; intros Hobj;
    try discriminate; try reflexivity.
  - unfold rid_reader_data, rid_reader_cal, rid_reader_events, if_present,
      trips, looked_up_keys. cbn -[contains].
    repeat match goal with
           | |- context [contains ?k s] =>
               destruct (contains k s); cbn -[contains]; [reflexivity|]
           end.
    reflexivity.
  - unfold rid_reader_data, rid_reader_cal, rid_reader_events, if_present,
      trips, looked_up_keys. cbn.
    repeat match goal with
           | |- context [existsb ?f l] =>
               destruct (existsb f l); cbn; [reflexivity|]
           end.
    reflexivity.
Qed.

Lemma world_eta (w : world C) :
  mkWorld C (doc C w) (disk C w) (dirs C w) (log C w) = w.
Proof. now destruct w. Qed.

(** C3, as the code has it: [rid_reader] raises when the source is not a
    well-formed container ([IOError] when it cannot be decompressed,
    [ValueError] when it is not JSON).  When the decoded top level is not an
    object it raises [TypeError] only if that value is null, a boolean or a
    number, or a string or an array that contains one of the field names the
    reader looks up; for every other string or array it returns normally.
    In all these cases the document is left as it was. *)
Theorem rid_reader_rejects (filename : string) (w : world C)
        (c : content C) :
  dict_get filename (disk C w) = Some c ->
  (forall text,
      text = (if is_ridz filename then gzip_read C c else Some c) ->
      (text = None -> rid_reader C filename w = Raise IOError w)
      /\ (forall t,
            text = Some t -> json_load C t = None ->
            rid_reader C filename w = Raise ValueError w)
      /\ (forall t data,
            text = Some t -> json_load C t = Some data ->
            is_object C data = false ->
            rid_reader C filename w
            = if trips C data then Raise TypeError w else Ok tt w)).
Proof.
  intros Hc text Htext. unfold rid_reader, bind, read_json. rewrite Hc.
  rewrite <- Htext. repeat split.
  - intros ->. reflexivity.
  - intros t -> Hj. now rewrite Hj.
  - intros t data -> Hj Hobj. rewrite Hj. unfold on_doc.
    rewrite (rid_reader_data_not_object _ _ Hobj).
    destruct (trips C data); now rewrite world_eta.
Qed.

(** ** Save, then load *)

Lemma split_none_none : split "None None" = ["None"; "None"].
Proof. reflexivity. Qed.

(** The reader's body on the dict the writer builds for a document that has
    only direct fields and calibration records. *)
Lemma reader_of_writer (r : Rids C) (spE spN : Spectral C) :
  comment C r = PNone ->
  (forall d, u_field C r d = PNone) ->
  (forall d, u_unit C r d = PNone) ->
  cal C r = [("E", spE); ("N", spN)] ->
  events C r = [] ->
  float_of_string C "None" = None ->
  exists ds r',
    writer_ds C r = Done ds
    /\ rid_reader_data C ds (new_Rids C PNone) = Ok tt r'
    /\ (forall d, d_field C r' d = d_field C r d)
    /\ comment C r' = PNone
    /\ cal C r' = [("E", spE); ("N", spN)]
    /\ events C r' = []
    /\ (forall d, u_field C r' d = PStr "None")
    /\ (forall d, u_unit C r' d = PStr "None").
Proof.
  intros Hcm Hu Huu Hcal Hev Hfl.
  destruct r as [df uf uu cm cl ev hk hf hv]. simpl in *. subst cm cl ev.
  destruct spE as [c1 p1 f1 v1 a1 m1], spN as [c2 p2 f2 v2 a2 m2].
  unfold writer_ds, writer_cal, writer_events, writer_spectral. simpl.
  rewrite !Hu, !Huu. simpl py_str.
  destruct a1, m1, a2, m2; simpl; eexists; eexists; (split; [reflexivity|]).
  all: split;
    [lazy -[float_of_string]; rewrite !Hfl; lazy -[float_of_string];
     reflexivity|].
  all: repeat split; intros d; destruct d; reflexivity.
Qed.

Lemma if_present_dict {S} (k : string) (kvs : list (string * value C))
      (body : value C -> M S unit) (st : S) :
  if_present C k (PDict kvs) body st
  = match dict_get k kvs with
    | Some x => body x st
    | None => Ok tt st
    end.
Proof.
  unfold if_present, bind, lift, py_in, py_getitem, dict_has, value in *.
  destruct (dict_get k kvs); reflexivity.
Qed.

(** ** What the reader reads of an object *)

Lemma bind_ext {S A B} (m m' : M S A) (k k' : A -> M S B) (st : S) :
  m st = m' st ->
  (forall a st1, k a st1 = k' a st1) ->
  bind m k st = bind m' k' st.
Proof.
  intros Hm Hk. unfold bind. rewrite Hm.
  destruct (m' st); [apply Hk|reflexivity].
Qed.

Lemma for_each_ext {S A} (l : list A) (f g : A -> M S unit) :
  (forall x, In x l -> forall st, f x st = g x st) ->
  forall st, for_each l f st = for_each l g st.
Proof.
  induction l as [|x l IH]; simpl; intros H st; [reflexivity|].
  apply bind_ext; [apply H; now left|].
  intros _ st1. apply IH. intros y Hy. apply H. now right.
Qed.

Lemma if_present_item {S} (k : string) (a b : value C)
      (body : value C -> M S unit) (st : S) :
  is_object C a = true -> is_object C b = true ->
  item C k b = item C k a ->
  if_present C k b body st = if_present C k a body st.
Proof.
  destruct a; try discriminate. destruct b; try discriminate.
  intros _ _ H. simpl in H. rewrite !if_present_dict.
  unfold value in *. now rewrite H.
Qed.

Lemma agree_on_item (keys : list string) (a b : value C) (k : string) :
  agree_on C keys a b -> In k keys -> item C k b = item C k a.
Proof. intros (_ & _ & H). apply H. Qed.

Lemma bind_lift_done {S A B} (a : A) (k : A -> M S B) (st : S) :
  bind (lift (Done a)) k st = k a st.
Proof. reflexivity. Qed.

Lemma py_getitem_item (x y : value C) (k : string) :
  item C k x = Some y -> py_getitem C x k = Done y.
Proof.
  destruct x; try discriminate. simpl. unfold value in *.
  now intros ->.
Qed.

Lemma py_in_item (x y : value C) (k : string) :
  item C k x = Some y -> py_in C k x = Done true.
Proof.
  destruct x; try discriminate. simpl. unfold dict_has, value in *.
  now intros ->.
Qed.

Lemma reader_cal_same (ds data : value C) :
  same_entries C ds data ->
  forall st, rid_reader_cal C data st = rid_reader_cal C ds st.
Proof.
  intros (_ & c & c' & Hc & Hc' & _ & Hpol) st.
  unfold rid_reader_cal.
  rewrite (py_in_item _ _ _ Hc), (py_in_item _ _ _ Hc').
  rewrite (py_getitem_item _ _ _ Hc), (py_getitem_item _ _ _ Hc').
  rewrite !bind_lift_done.
  apply for_each_ext. intros pol Hin st1.
  destruct (Hpol pol Hin) as (b & b' & Hb & Hb' & Hob & Hob' & Hf).
  rewrite !bind_lift_done.
  rewrite (py_in_item _ _ _ Hb), (py_in_item _ _ _ Hb').
  rewrite !bind_lift_done.
  apply for_each_ext. intros v Hv st2.
  rewrite !bind_lift_done.
  rewrite (py_getitem_item _ _ _ Hb), (py_getitem_item _ _ _ Hb').
  rewrite !bind_lift_done.
  apply if_present_item; [exact Hob|exact Hob'|].
  apply Hf. now apply in_map.
Qed.

Lemma reader_events_same (ds data : value C) :
  same_entries C ds data ->
  forall st, rid_reader_events C data st = rid_reader_events C ds st.
Proof.
  intros (Hp & _) st.
  pose proof (agree_on_item _ _ _ "events" Hp) as He.
  destruct Hp as (Ha & Hb & _).
  destruct ds as [| | | | |kv]; try discriminate.
  destruct data as [| | | | |kv']; try discriminate.
  assert (E : dict_get "events" kv' = dict_get "events" kv).
  { apply He. unfold plain_keys. simpl. tauto. }
  unfold rid_reader_events, py_in, py_getitem, dict_has.
  unfold value in *. rewrite E. reflexivity.
Qed.

(** A load of [data] does what a load of [ds] does. *)
Lemma reader_same_entries (ds data : value C) :
  same_entries C ds data ->
  forall st, rid_reader_data C data st = rid_reader_data C ds st.
Proof.
  intros H st. pose proof H as (Hp & _).
  pose proof (agree_on_item _ _ _ "comment" Hp) as Hcm.
  pose proof (fun k => agree_on_item _ _ _ k Hp) as Hk.
  destruct Hp as (Ha & Hb & _).
  unfold rid_reader_data.
  apply bind_ext.
  { apply if_present_item; auto. apply Hcm. now left. }
  intros _ st1. apply bind_ext.
  { apply for_each_ext. intros d _ st2. apply if_present_item; auto.
    apply Hk. unfold plain_keys. right. apply in_or_app. left.
    now apply in_map; destruct d; simpl; tauto. }
  intros _ st2. apply bind_ext.
  { apply for_each_ext. intros d _ st3. apply if_present_item; auto.
    apply Hk. unfold plain_keys. right. apply in_or_app. right.
    apply in_or_app. left.
    now apply in_map; destruct d; simpl; tauto. }
  intros _ st3. apply bind_ext.
  { now apply reader_cal_same. }
  intros _ st4. now apply reader_events_same.
Qed.

(** C2, as the code has it: a document with only direct fields and the
    two calibration records set, saved and then loaded into a fresh
    document, comes back equal in its comment, direct fields, calibration
    records and events; every unit-split field and its unit, unset in the
    original, come back as the string ["None"].  The container and the
    decoder are asked to hand back the one text and the one object that
    were written, the object up to the order of its keys. *)
Theorem save_then_load (filename : string) (w : world C)
        (spE spN : Spectral C) (ds data : value C) :
  comment C (doc C w) = PNone ->
  (forall d, u_field C (doc C w) d = PNone) ->
  (forall d, u_unit C (doc C w) d = PNone) ->
  cal C (doc C w) = [("E", spE); ("N", spN)] ->
  events C (doc C w) = [] ->
  writer_ds C (doc C w) = Done ds ->
  (is_ridz filename = true ->
   gzip_read C (gzip_write C (fix_json_list C (json_dumps C ds)))
   = Some (fix_json_list C (json_dumps C ds))) ->
  json_load C (fix_json_list C (json_dumps C ds)) = Some data ->
  same_entries C ds data ->
  float_of_string C "None" = None ->
  exists w1 w2,
    rid_writer C filename true w = Ok tt w1
    /\ rid_reader C filename
         (mkWorld C (new_Rids C PNone) (disk C w1) (dirs C w1) [])
       = Ok tt w2
    /\ (forall d, d_field C (doc C w2) d = d_field C (doc C w) d)
    /\ comment C (doc C w2) = comment C (doc C w)
    /\ cal C (doc C w2) = cal C (doc C w)
    /\ events C (doc C w2) = events C (doc C w)
    /\ (forall d, u_field C (doc C w2) d = PStr "None"
                  /\ u_unit C (doc C w2) d = PStr "None").
Proof.
  intros Hcm Hu Huu Hcal Hev Hds Hgz Hjs Hsame Hfl.
  destruct (reader_of_writer (doc C w) spE spN Hcm Hu Huu Hcal Hev Hfl)
    as (ds0 & r' & Hds0 & Hrd & Hd & Hc' & Hcal' & Hev' & Hu' & Huu').
  assert (ds0 = ds) by congruence. subst ds0.
  unfold rid_writer, bind, get_state, lift. rewrite Hds.
  unfold ret, modify, tell, modify.
  eexists. eexists. split; [reflexivity|].
  unfold rid_reader, bind, read_json. cbn [disk doc log dirs].
  rewrite dict_get_set_eq.
  assert (Ht : (if is_ridz filename
                then gzip_read C
                       (if is_ridz filename
                        then gzip_write C (fix_json_list C (json_dumps C ds))
                        else fix_json_list C (json_dumps C ds))
                else Some (if is_ridz filename
                           then gzip_write C
                                  (fix_json_list C (json_dumps C ds))
                           else fix_json_list C (json_dumps C ds)))
               = Some (fix_json_list C (json_dumps C ds))).
  { destruct (is_ridz filename); [now apply Hgz|reflexivity]. }
  rewrite Ht, Hjs. unfold on_doc. cbn [disk doc log dirs].
  rewrite (reader_same_entries ds data Hsame), Hrd.
  split; [reflexivity|]. cbn [disk doc log dirs].
  rewrite Hcm, Hcal, Hev. repeat split; auto.
Qed.

End Reader.

(** * Further properties *)

Section SetFacts.
Context (C : Collaborators).


End SetFacts.

Section LoopFacts.
Context (C : Collaborators).

(** X2: with [max_loops] zero or negative, [process_files] returns at once:
    the directory is not listed and nothing is written. *)
Theorem process_files_no_loops (directory : string)
        (obs_per_file max_loops : Z) (w : world C) :
  (max_loops <= 0)%Z ->
  process_files C directory obs_per_file max_loops w = Ok Finished w.
Proof.
  intros H. unfold process_files, process_files_fuel.
  replace (Z.to_nat max_loops) with 0 by lia. simpl.
  assert (E : (max_loops <? 1)%Z = true) by (apply Z.ltb_lt; lia).
  now rewrite E.
Qed.



Lemma os_listdir_missing (directory : string) (ds : list string)
      (d : disk_t C) :
  directory = "" \/ is_dir directory ds = false ->
  os_listdir C directory ds d = Fail OSError.
Proof.
  unfold os_listdir. intros [->|H].
  - reflexivity.
  - now rewrite H.
Qed.

(** X16: on the empty path and on a directory that does not exist,
    [process_files] with a positive [max_loops] raises [OSError] at its
    first listing: nothing is classified, built, removed or written, and
    the document is as it was. *)
Theorem process_files_missing_directory (directory : string)
        (obs_per_file max_loops : Z) (w : world C) :
  (1 <= max_loops)%Z ->
  directory = "" \/ is_dir directory (dirs C w) = false ->
  process_files C directory obs_per_file max_loops w
  = Raise OSError (mkWorld C (doc C w) (disk C w) (dirs C w)
                           (log C w ++ [AScan directory])).
Proof.
  intros Hml Hdir.
  unfold process_files, process_files_fuel. simpl.
  assert (E : (max_loops <? 1)%Z = false) by (apply Z.ltb_ge; lia).
  rewrite E. unfold bind. rewrite scan_cycle_steps.
  now rewrite (os_listdir_missing _ _ _ Hdir).
Qed.

End LoopFacts.

Section WriterFacts.
Context (C : Collaborators).



End WriterFacts.

Section EventFacts.
Context (C : Collaborators).

Lemma untouched_refl (event : string) (r : Rids C) : untouched C event r r.
Proof. repeat split. Qed.

Lemma untouched_trans (event : string) (r1 r2 r3 : Rids C) :
  untouched C event r1 r2 -> untouched C event r2 r3 ->
  untouched C event r1 r3.
Proof.
  intros (Hd & Hu & Huu & Hc & Hcal & He) (Hd' & Hu' & Huu' & Hc' & Hcal' & He').
  split; [|split; [|split; [|split; [|split]]]].
  - intros d. now rewrite Hd'.
  - intros d. now rewrite Hu'.
  - intros d. now rewrite Huu'.
  - congruence.
  - congruence.
  - intros other Hne. rewrite He' by assumption. now apply He.
Qed.

Lemma frames_ret {A} (event : string) (a : A) : frames C event (ret a).
Proof. intros r. apply untouched_refl. Qed.

Lemma frames_raise {A} (event : string) (e : exn) :
  frames C event (@raise _ A e).
Proof. intros r. apply untouched_refl. Qed.

Lemma frames_lift {A} (event : string) (x : result A) :
  frames C event (lift x).
Proof. destruct x; intros r; apply untouched_refl. Qed.

Lemma frames_get_state (event : string) : frames C event get_state.
Proof. intros r. apply untouched_refl. Qed.

Lemma frames_bind {A B} (event : string) (m : M (Rids C) A)
      (k : A -> M (Rids C) B) :
  frames C event m -> (forall a, frames C event (k a)) ->
  frames C event (bind m k).
Proof.
  intros Hm Hk r. unfold bind. specialize (Hm r).
  destruct (m r) as [a r1|e r1]; simpl in *; [|exact Hm].
  eapply untouched_trans; [exact Hm|apply Hk].
Qed.

Lemma frames_modify (event : string) (f : Rids C -> Rids C) :
  (forall r, untouched C event r (f r)) -> frames C event (modify f).
Proof. intros H r. apply H. Qed.

Lemma untouched_set_events (event : string) (sp : Spectral C) (r : Rids C) :
  untouched C event r (set_events C (dict_set event sp (events C r)) r).
Proof.
  repeat split. intros other Hne. simpl. now apply dict_get_set_ne.
Qed.

Lemma frames_set_event_field (event : string) (v : sfield) (x : value C) :
  frames C event (set_event_field C event v x).
Proof.
  intros r. unfold set_event_field, bind, get_state, setattr_in.
  destruct (dict_get event (events C r)) as [sp|]; simpl.
  - apply untouched_set_events.
  - apply untouched_refl.
Qed.

Lemma frames_peak_finder (event : string) (fr va : list (number C)) :
  frames C event (peak_finder C fr va).
Proof.
  unfold peak_finder.
  apply frames_bind; [apply frames_modify; intros r; repeat split|intros _].
  apply frames_bind; [apply frames_modify; intros r; repeat split|intros _].
  apply frames_bind; [apply frames_get_state|intros r].
  apply frames_bind; [apply frames_lift|intros pk].
  apply frames_modify. intros r0. repeat split.
Qed.

Lemma frames_build_event (event pol : string)
      (ave maxhold : list (number C) * list (number C)) :
  frames C event (build_event C event pol ave maxhold).
Proof.
  unfold build_event.
  apply frames_bind;
    [apply frames_modify; intros r; apply untouched_set_events|intros _].
  destruct (is_baseline event).
  - repeat (apply frames_bind; [apply frames_set_event_field|intros _]).
    apply frames_set_event_field.
  - apply frames_bind; [apply frames_peak_finder|intros _].
    apply frames_bind; [apply frames_get_state|intros r].
    destruct (np_take (fst maxhold) _); [|apply frames_raise].
    apply frames_bind; [apply frames_set_event_field|intros _].
    apply frames_bind.
    + destruct (np_take (snd ave) _);
        [apply frames_set_event_field|apply frames_ret].
    + intros _. destruct (np_take (snd maxhold) _);
        [apply frames_set_event_field|apply frames_raise].
Qed.

Lemma read_spectrum_state (fn pol : string) (w : world C) :
  state_of (read_spectrum C fn pol w) = w.
Proof.
  unfold read_spectrum. destruct (dict_get fn (disk C w)); [|reflexivity].
  destruct (spectrum_reader C fn _ pol); reflexivity.
Qed.

Lemma get_event_untouched (event ave_fn maxhold_fn pol : string)
        (w : world C) :
  disk C (state_of (get_event C event ave_fn maxhold_fn pol w)) = disk C w
  /\ untouched C event (doc C w)
       (doc C (state_of (get_event C event ave_fn maxhold_fn pol w))).
Proof.
  unfold get_event, bind.
  pose proof (read_spectrum_state ave_fn pol w) as Ha.
  destruct (read_spectrum C ave_fn pol w) as [ave w1|e w1]; simpl in Ha;
    subst w1; [|split; [reflexivity|apply untouched_refl]].
  pose proof (read_spectrum_state maxhold_fn pol w) as Hm.
  destruct (read_spectrum C maxhold_fn pol w) as [maxhold w1|e w1];
    simpl in Hm; subst w1; [|split; [reflexivity|apply untouched_refl]].
  unfold on_doc.
  pose proof (frames_build_event event pol ave maxhold (doc C w)) as Hf.
  destruct (build_event C event pol ave maxhold (doc C w)) as [[] r|e r];
    simpl in *; split; auto.
Qed.

(** X5: whatever [get_event] does and however it ends, it leaves the files
    on the disk, the header, the comment, the calibration records and the
    events of every other name as they were. *)
Theorem get_event_frame (event ave_fn maxhold_fn pol : string)
        (w : world C) :
  disk C (state_of (get_event C event ave_fn maxhold_fn pol w)) = disk C w
  /\ untouched C event (doc C w)
       (doc C (state_of (get_event C event ave_fn maxhold_fn pol w))).
Proof.
  split; [apply get_event_untouched|].
  destruct (get_event_untouched event ave_fn maxhold_fn pol w)
    as [_ (Hd & Hu & Huu & Hc & Hcal & He)].
  split; [exact Hd|]. split; [exact Hu|]. split; [exact Huu|].
  split; [exact Hc|]. split; [exact Hcal|exact He].
Qed.

(** X6: when one of the two spectra cannot be read, [get_event] raises
    before it touches anything: the world is exactly as before, and no
    event of that name is created. *)
Theorem get_event_unreadable (event ave_fn maxhold_fn pol : string)
        (w : world C) :
  value_of (read_spectrum C ave_fn pol w) = None
  \/ value_of (read_spectrum C maxhold_fn pol w) = None ->
  raised (get_event C event ave_fn maxhold_fn pol w) <> None
  /\ state_of (get_event C event ave_fn maxhold_fn pol w) = w.
Proof.
  intros H. unfold get_event, bind.
  pose proof (read_spectrum_state ave_fn pol w) as Ha.
  destruct (read_spectrum C ave_fn pol w) as [ave w1|e w1]; simpl in Ha;
    subst w1; [|split; [discriminate|reflexivity]].
  pose proof (read_spectrum_state maxhold_fn pol w) as Hm.
  destruct (read_spectrum C maxhold_fn pol w) as [maxhold w1|e w1];
    simpl in Hm; subst w1; [|split; [discriminate|reflexivity]].
  destruct H; discriminate.
Qed.

(** X7: in peak mode, when an index of the peak finder is out of the bounds
    of [maxhold.freq], [get_event] raises [IndexError] after it has
    replaced the event: the document is left with a blank event of that
    name (only its polarization set) and with the peak finder's fields of
    this build. *)
Theorem get_event_peak_out_of_range (event ave_fn maxhold_fn pol : string)
        (w : world C) (ca cm : content C)
        (ave maxhold : list (number C) * list (number C)) (P : list Z) :
  is_baseline event = false ->
  dict_get ave_fn (disk C w) = Some ca ->
  spectrum_reader C ave_fn ca pol = Done ave ->
  dict_get maxhold_fn (disk C w) = Some cm ->
  spectrum_reader C maxhold_fn cm pol = Done maxhold ->
  peaks_fp C (snd maxhold) (u_field C (doc C w) threshold)
           cwt_range rc_range = Done P ->
  ~ Forall (in_bounds (fst maxhold)) P ->
  exists w',
    get_event C event ave_fn maxhold_fn pol w = Raise IndexError w'
    /\ dict_get event (events C (doc C w'))
       = Some (new_Spectral C (PStr pol) (PStr ""))
    /\ hipk C (doc C w') = Some P
    /\ hipk_freq C (doc C w') = Some (fst maxhold)
    /\ hipk_val C (doc C w') = Some (snd maxhold)
    /\ log C w' = log C w.
Proof.
  intros Hb Ha Hra Hm Hrm Hpk Hout.
  unfold get_event, bind.
  rewrite (read_spectrum_ok _ _ _ _ _ _ Ha Hra).
  rewrite (read_spectrum_ok _ _ _ _ _ _ Hm Hrm).
  unfold on_doc, build_event. rewrite Hb.
  unfold peak_finder, bind, modify, get_state, lift. simpl.
  rewrite Hpk. unfold ret. simpl.
  rewrite (np_take_none _ _ Hout). unfold raise.
  eexists. split; [reflexivity|]. simpl.
  split; [apply dict_get_set_eq|]. repeat split.
Qed.

Lemma get_event_raise_log (event ave_fn maxhold_fn pol : string)
      (w : world C) (e : exn) :
  raised (get_event C event ave_fn maxhold_fn pol w) = Some e ->
  log C (state_of (get_event C event ave_fn maxhold_fn pol w)) = log C w.
Proof.
  unfold get_event, bind.
  pose proof (read_spectrum_state ave_fn pol w) as Ha.
  destruct (read_spectrum C ave_fn pol w) as [ave w1|e1 w1]; simpl in Ha;
    subst w1; [|reflexivity].
  pose proof (read_spectrum_state maxhold_fn pol w) as Hm.
  destruct (read_spectrum C maxhold_fn pol w) as [mx w1|e2 w1];
    simpl in Hm; subst w1; [|reflexivity].
  unfold on_doc.
  destruct (build_event C event pol ave mx (doc C w)) as [[] r|e3 r];
    simpl; [discriminate|reflexivity].
Qed.

(** X8: a pair whose build fails is not consumed: [process_pair] raises the
    same exception, and neither file has been removed from the disk nor
    any removal logged. *)
Theorem process_pair_keeps_failed (pol : string) (am : string * string)
        (w : world C) (e : exn) :
  raised (get_event C (peel_time_stamp C (fst am) ++ pol)
                    (fst am) (snd am) pol w) = Some e ->
  raised (process_pair C pol am w) = Some e
  /\ disk C (state_of (process_pair C pol am w)) = disk C w
  /\ log C (state_of (process_pair C pol am w)) = log C w.
Proof.
  intros H. unfold process_pair, bind.
  pose proof (get_event_untouched (peel_time_stamp C (fst am) ++ pol)
                (fst am) (snd am) pol w) as [Hd _].
  pose proof (get_event_raise_log _ _ _ _ _ _ H) as Hl.
  rewrite (raise_value _ _ H). simpl. auto.
Qed.

End EventFacts.

Section ClassifyFacts.
Context (C : Collaborators).

Lemma classify_from (directory : string) (available_files : list string) :
  forall (f0 : file_lists) (l0 : bool),
    existsb (stray C) available_files = false ->
    classify C directory available_files f0 l0
    = Done (mkFiles
              (ave_E f0 ++ select C directory "ave" "E" available_files)
              (ave_N f0 ++ select C directory "ave" "N" available_files)
              (maxh_E f0 ++ select C directory "maxh" "E" available_files)
              (maxh_N f0 ++ select C directory "maxh" "N" available_files),
            l0 || existsb (is_capture C) available_files).
Proof.
  induction available_files as [|af rest IH]; intros f0 l0; simpl.
  - intros _. rewrite !app_nil_r, orb_false_r. now destruct f0.
  - unfold stray at 1, is_capture at 1 2, select, qualifies, f_append.
    simpl filter.
    destruct (String.eqb_spec (fst (peel_type_polarization C af)) "ave")
      as [Et|Et].
    + rewrite Et. simpl.
      destruct (String.eqb_spec (snd (peel_type_polarization C af)) "E")
        as [Ep|Ep].
      * rewrite ?Ep. simpl. intros H. rewrite (IH _ _ H). simpl.
        unfold select. rewrite <- !app_assoc. simpl.
        now rewrite orb_true_r.
      * destruct (String.eqb_spec (snd (peel_type_polarization C af)) "N")
          as [Ep'|Ep'].
        -- rewrite ?Ep. simpl. intros H. rewrite (IH _ _ H). simpl.
           unfold select. rewrite <- !app_assoc. simpl.
           now rewrite orb_true_r.
        -- simpl. discriminate.
    + destruct (String.eqb_spec (fst (peel_type_polarization C af)) "maxh")
        as [Et'|Et'].
      * rewrite ?Et'. simpl.
        destruct (String.eqb_spec (snd (peel_type_polarization C af)) "E")
          as [Ep|Ep].
        -- rewrite ?Ep. simpl. intros H. rewrite (IH _ _ H). simpl.
           unfold select. rewrite <- !app_assoc. simpl.
           now rewrite orb_true_r.
        -- destruct (String.eqb_spec (snd (peel_type_polarization C af)) "N")
             as [Ep'|Ep'].
           ++ rewrite ?Ep. simpl. intros H. rewrite (IH _ _ H). simpl.
              unfold select. rewrite <- !app_assoc. simpl.
              now rewrite orb_true_r.
           ++ simpl. discriminate.
      * simpl. intros H. rewrite (IH _ _ H). reflexivity.
Qed.

Lemma classify_stray (directory : string) (available_files : list string) :
  forall (f0 : file_lists) (l0 : bool),
    existsb (stray C) available_files = true ->
    classify C directory available_files f0 l0 = Fail KeyError.
Proof.
  induction available_files as [|af rest IH]; intros f0 l0; simpl;
    [discriminate|].
  unfold stray at 1, is_capture at 1, qualifies, f_append.
  destruct (String.eqb (fst (peel_type_polarization C af)) "ave");
    destruct (String.eqb (fst (peel_type_polarization C af)) "maxh");
    destruct (String.eqb (snd (peel_type_polarization C af)) "E");
    destruct (String.eqb (snd (peel_type_polarization C af)) "N");
    simpl; auto.
Qed.

(** X9: the scan groups the listed files by type and polarization, in
    listing order, as paths inside the directory, and sets the [loop] flag
    when one of them is an [ave] or [maxh] file; it raises [KeyError] as
    soon as such a file carries a polarization other than E and N. *)
Theorem classify_groups (directory : string)
        (available_files : list string) :
  (existsb (stray C) available_files = false ->
   classify C directory available_files no_files false
   = Done (mkFiles (select C directory "ave" "E" available_files)
                   (select C directory "ave" "N" available_files)
                   (select C directory "maxh" "E" available_files)
                   (select C directory "maxh" "N" available_files),
           existsb (is_capture C) available_files))
  /\ (existsb (stray C) available_files = true ->
      classify C directory available_files no_files false = Fail KeyError).
Proof.
  split.
  - intros H. now rewrite (classify_from _ _ _ _ H).
  - apply classify_stray.
Qed.

End ClassifyFacts.

Section MergeFacts.
Context (C : Collaborators).

Lemma keeps_ret {A T} (part : Rids C -> T) (a : A) : keeps C part (ret a).
Proof. intros st. reflexivity. Qed.

Lemma keeps_raise {A T} (part : Rids C -> T) (e : exn) :
  keeps C part (@raise _ A e).
Proof. intros st. reflexivity. Qed.

Lemma keeps_lift {A T} (part : Rids C -> T) (x : result A) :
  keeps C part (lift x).
Proof. destruct x; intros st; reflexivity. Qed.

Lemma keeps_get_state {T} (part : Rids C -> T) : keeps C part get_state.
Proof. intros st. reflexivity. Qed.

Lemma keeps_modify {T} (part : Rids C -> T) (f : Rids C -> Rids C) :
  (forall st, part (f st) = part st) -> keeps C part (modify f).
Proof. intros H st. apply H. Qed.

Lemma keeps_bind {A B T} (part : Rids C -> T) (m : M (Rids C) A)
      (k : A -> M (Rids C) B) :
  keeps C part m -> (forall a, keeps C part (k a)) ->
  keeps C part (bind m k).
Proof.
  intros Hm Hk st. unfold bind. specialize (Hm st).
  destruct (m st) as [a st1|e st1]; simpl in *; [|exact Hm].
  now rewrite Hk.
Qed.

Lemma keeps_for_each {A T} (part : Rids C -> T) (l : list A)
      (body : A -> M (Rids C) unit) :
  (forall x, keeps C part (body x)) -> keeps C part (for_each l body).
Proof.
  intros Hb. induction l as [|x l IH]; simpl.
  - apply keeps_ret.
  - apply keeps_bind; auto.
Qed.

Ltac keeps_step :=
  match goal with
  | |- keeps _ _ (bind _ _) => apply keeps_bind; [|intros ?]
  | |- keeps _ _ (for_each _ _) => apply keeps_for_each; intros ?
  | |- keeps _ _ (ret _) => apply keeps_ret
  | |- keeps _ _ (raise _) => apply keeps_raise
  | |- keeps _ _ (lift _) => apply keeps_lift
  | |- keeps _ _ get_state => apply keeps_get_state
  | |- keeps _ _ (modify _) => apply keeps_modify; intros ?; reflexivity
  | |- keeps _ _ (if_present _ _ _ _) => unfold if_present
  | |- keeps _ _ (if ?b then _ else _) => destruct b
  | |- keeps _ _ (match ?d with _ => _ end) => destruct d
  end.

Lemma keeps_append_comment {T} (part : Rids C -> T) (c : value C) :
  (forall x st, part (set_comment C x st) = part st) ->
  keeps C part (append_comment C c).
Proof.
  intros H st. unfold append_comment.
  destruct c; try reflexivity; destruct (comment C st); simpl;
    try reflexivity; apply H.
Qed.

Lemma keeps_set_uattr {T} (part : Rids C -> T) (d : uattr) (x : value C) :
  (forall v u st, part (set_u_unit C d u (set_u_field C d v st)) = part st) ->
  keeps C part (_set_uattr C d x).
Proof.
  intros H st. unfold _set_uattr.
  destruct x; try reflexivity.
  destruct (split s) as [|v0 [|v1 rest]]; try reflexivity; apply H.
Qed.

Lemma keeps_reader_cal {T} (part : Rids C -> T) (data : value C) :
  (forall c st, part (set_cal C c st) = part st) ->
  keeps C part (rid_reader_cal C data).
Proof.
  intros H. unfold rid_reader_cal.
  repeat first [keeps_step | apply keeps_modify; intros ?; apply H].
Qed.

Lemma keeps_reader_events {T} (part : Rids C -> T) (data : value C) :
  (forall e st, part (set_events C e st) = part st) ->
  keeps C part (rid_reader_events C data).
Proof.
  intros H. unfold rid_reader_events.
  repeat first [keeps_step | apply keeps_modify; intros ?; apply H].
Qed.

(** The loop over the direct fields of [rid_reader], on an object. *)
Lemma reader_direct_fields (kvs : list (string * value C)) (st : Rids C) :
  exists st',
    for_each dattrs
      (fun d => if_present C (dattr_name d) (PDict kvs)
                  (fun x => modify (set_d_field C d x))) st
    = Ok tt st'
    /\ (forall d,
          d_field C st' d
          = match dict_get (dattr_name d) kvs with
            | Some x => x
            | None => d_field C st d
            end)
    /\ comment C st' = comment C st
    /\ (forall d, u_field C st' d = u_field C st d)
    /\ (forall d, u_unit C st' d = u_unit C st d).
Proof.
  remember (dict_get "instrument" kvs) as o1 eqn:E1.
  remember (dict_get "receiver" kvs) as o2 eqn:E2.
  remember (dict_get "time_stamp" kvs) as o3 eqn:E3.
  remember (dict_get "freq_unit" kvs) as o4 eqn:E4.
  remember (dict_get "val_unit" kvs) as o5 eqn:E5.
  unfold dattrs. simpl for_each. unfold bind, modify, ret.
  rewrite if_present_dict. simpl dattr_name. rewrite <- E1.
  destruct o1; cbv beta iota;
    (rewrite if_present_dict; simpl dattr_name; rewrite <- E2);
    destruct o2; cbv beta iota;
    (rewrite if_present_dict; simpl dattr_name; rewrite <- E3);
    destruct o3; cbv beta iota;
    (rewrite if_present_dict; simpl dattr_name; rewrite <- E4);
    destruct o4; cbv beta iota;
    (rewrite if_present_dict; simpl dattr_name; rewrite <- E5);
    destruct o5; cbv beta iota;
    eexists; (split; [reflexivity|]);
    (split;
     [intros d; destruct d; simpl dattr_name;
      rewrite <- ?E1, <- ?E2, <- ?E3, <- ?E4, <- ?E5; reflexivity|]);
    repeat split.
Qed.

(** The loop over the unit-split fields leaves a field whose name is not in
    the object as it was. *)
Lemma reader_unit_fields_absent (kvs : list (string * value C))
      (d0 : uattr) :
  dict_get (uattr_name d0) kvs = None ->
  keeps C (fun r => (u_field C r d0, u_unit C r d0))
    (for_each uattrs
       (fun d => if_present C (uattr_name d) (PDict kvs) (_set_uattr C d))).
Proof.
  intros Habs. apply keeps_for_each. intros d st.
  rewrite if_present_dict.
  destruct (dict_get (uattr_name d) kvs) as [x|] eqn:Ed; [|reflexivity].
  assert (E : uattr_eqb d0 d = false).
  { destruct d0, d; try reflexivity; congruence. }
  apply (keeps_set_uattr (fun r => (u_field C r d0, u_unit C r d0)) d x).
  intros v u st0. simpl. now rewrite E.
Qed.

(** X10: a load merges into the document.  After a successful load of an
    object, each direct field holds the source's value when the source has
    that key and its previous value otherwise; the comment is the previous
    one with the source's appended; a unit-split field whose key the source
    lacks keeps its value and unit. *)
Theorem rid_reader_merges (kvs : list (string * value C))
        (st st' : Rids C) :
  rid_reader_data C (PDict kvs) st = Ok tt st' ->
  (forall d,
      d_field C st' d
      = match dict_get (dattr_name d) kvs with
        | Some x => x
        | None => d_field C st d
        end)
  /\ comment C st'
     = match dict_get "comment" kvs with
       | Some x => comment C (state_of (append_comment C x st))
       | None => comment C st
       end
  /\ (forall d,
        dict_get (uattr_name d) kvs = None ->
        u_field C st' d = u_field C st d /\ u_unit C st' d = u_unit C st d).
Proof.
  unfold rid_reader_data. unfold bind at 1.
  rewrite if_present_dict.
  set (A := match dict_get "comment" kvs with
            | Some x => append_comment C x st
            | None => Ok tt st
            end).
  assert (HA : (forall d, d_field C (state_of A) d = d_field C st d)
               /\ (forall d, u_field C (state_of A) d = u_field C st d)
               /\ (forall d, u_unit C (state_of A) d = u_unit C st d)
               /\ comment C (state_of A)
                  = match dict_get "comment" kvs with
                    | Some x => comment C (state_of (append_comment C x st))
                    | None => comment C st
                    end).
  { subst A. destruct (dict_get "comment" kvs) as [x|]; [|repeat split].
    split; [|split; [|split]]; try reflexivity; intros d.
    - apply (keeps_append_comment (fun r => d_field C r d)). reflexivity.
    - apply (keeps_append_comment (fun r => u_field C r d)). reflexivity.
    - apply (keeps_append_comment (fun r => u_unit C r d)). reflexivity. }
  destruct A as [[] st1|e st1]; [|discriminate]. simpl in HA.
  destruct HA as (HAd & HAu & HAuu & HAc).
  unfold bind at 1.
  destruct (reader_direct_fields kvs st1)
    as (st2 & -> & HBd & HBc & HBu & HBuu).
  unfold bind at 1.
  set (U := for_each uattrs
              (fun d => if_present C (uattr_name d) (PDict kvs)
                          (_set_uattr C d))).
  assert (HUd : forall d, keeps C (fun r => d_field C r d) U).
  { intros d. subst U. apply keeps_for_each. intros d1.
    unfold if_present. repeat keeps_step.
    apply keeps_set_uattr. reflexivity. }
  assert (HUc : keeps C (comment C) U).
  { subst U. apply keeps_for_each. intros d1.
    unfold if_present. repeat keeps_step.
    apply keeps_set_uattr. reflexivity. }
  assert (HUu : forall d, dict_get (uattr_name d) kvs = None ->
                          keeps C (fun r => (u_field C r d, u_unit C r d)) U).
  { intros d Hd. subst U. now apply reader_unit_fields_absent. }
  specialize (fun d => HUd d st2). specialize (HUc st2).
  specialize (fun d Hd => HUu d Hd st2).
  destruct (U st2) as [[] st3|e st3]; [|discriminate]. simpl in *.
  unfold bind at 1.
  pose proof (fun d => keeps_reader_cal (fun r => d_field C r d)
                         (PDict kvs) (fun _ _ => eq_refl) st3) as HCd.
  pose proof (keeps_reader_cal (comment C) (PDict kvs)
                (fun _ _ => eq_refl) st3) as HCc.
  pose proof (fun d => keeps_reader_cal
                         (fun r => (u_field C r d, u_unit C r d))
                         (PDict kvs) (fun _ _ => eq_refl) st3) as HCu.
  destruct (rid_reader_cal C (PDict kvs) st3) as [[] st4|e st4];
    [|discriminate]. simpl in *.
  intros HE.
  pose proof (fun d => keeps_reader_events (fun r => d_field C r d)
                         (PDict kvs) (fun _ _ => eq_refl) st4) as HEd.
  pose proof (keeps_reader_events (comment C) (PDict kvs)
                (fun _ _ => eq_refl) st4) as HEc.
  pose proof (fun d => keeps_reader_events
                         (fun r => (u_field C r d, u_unit C r d))
                         (PDict kvs) (fun _ _ => eq_refl) st4) as HEu.
  rewrite HE in HEd, HEc, HEu. simpl in *.
  split; [|split].
  - intros d. rewrite HEd, HCd, HUd, HBd.
    destruct (dict_get (dattr_name d) kvs); [reflexivity|apply HAd].
  - rewrite HEc, HCc, HUc, HBc. exact HAc.
  - intros d Hd. specialize (HUu d Hd). specialize (HCu d).
    specialize (HEu d).
    assert (Hp : (u_field C st' d, u_unit C st' d)
                 = (u_field C st d, u_unit C st d)).
    { rewrite HEu, HCu, HUu. now rewrite HBu, HBuu, HAu, HAuu. }
    inversion Hp. split; reflexivity.
Qed.

Lemma set_event_field_other (event other : string) (v : sfield)
      (x : value C) (r : Rids C) :
  other <> event ->
  dict_get other (events C (state_of (set_event_field C event v x r)))
  = dict_get other (events C r).
Proof.
  intros Hne.
  destruct (frames_set_event_field C event v x r) as (_ & _ & _ & _ & _ & H).
  now apply H.
Qed.

(** One field of one event of the source. *)
Lemma reader_event_field (kvs evs : list (string * value C))
      (name : string) (body : value C) (v : sfield)
      (sp : Spectral C) (r r' : Rids C) :
  dict_get "events" kvs = Some (PDict evs) ->
  dict_get name evs = Some body ->
  dict_get name (events C r) = Some sp ->
  (devents <- lift (py_getitem C (PDict kvs) "events") ;;
   dev <- lift (py_getitem C devents name) ;;
   if_present C (sfield_name v) dev (set_event_field C name v)) r
  = Ok tt r' ->
  dict_get name (events C r') = Some (apply_field C body sp v)
  /\ (forall other, other <> name ->
                    dict_get other (events C r')
                    = dict_get other (events C r)).
Proof.
  intros Hev Hname Hsp.
  unfold bind at 1. unfold lift at 1, py_getitem at 1.
  unfold value in *. rewrite Hev. unfold ret at 1.
  unfold bind at 1. unfold lift at 1, py_getitem at 1.
  rewrite Hname. unfold ret at 1.
  unfold apply_field.
  destruct body as [| b | x | s | l | kv].
  - discriminate.
  - discriminate.
  - discriminate.
  - unfold if_present, bind, lift, py_in, py_getitem, ret, raise.
    destruct (contains (sfield_name v) s); [discriminate|].
    intros H. inversion H; subst. auto.
  - unfold if_present, bind, lift, py_in, py_getitem, ret, raise.
    destruct (existsb _ l); [discriminate|].
    intros H. inversion H; subst. auto.
  - rewrite if_present_dict. unfold value in *.
    destruct (dict_get (sfield_name v) kv) as [x|].
    + rewrite (set_event_field_ok C name v x r sp Hsp).
      intros H. inversion H; subst. simpl. split.
      * apply dict_get_set_eq.
      * intros other Hne. now apply dict_get_set_ne.
    + intros H. inversion H; subst. auto.
Qed.

(** The fields of one event of the source, in order. *)
Lemma reader_event_fields (kvs evs : list (string * value C))
      (name : string) (body : value C) (fields : list sfield) :
  dict_get "events" kvs = Some (PDict evs) ->
  dict_get name evs = Some body ->
  forall (sp : Spectral C) (r r' : Rids C),
    dict_get name (events C r) = Some sp ->
    for_each fields
      (fun v =>
         devents <- lift (py_getitem C (PDict kvs) "events") ;;
         dev <- lift (py_getitem C devents name) ;;
         if_present C (sfield_name v) dev (set_event_field C name v)) r
    = Ok tt r' ->
    dict_get name (events C r')
    = Some (fold_left (apply_field C body) fields sp)
    /\ (forall other, other <> name ->
                      dict_get other (events C r')
                      = dict_get other (events C r)).
Proof.
  intros Hev Hname.
  induction fields as [|v fields IH]; intros sp r r' Hsp; simpl.
  - intros H. inversion H; subst. auto.
  - unfold bind at 1.
    match goal with
    | |- match ?step r with _ => _ end = _ -> _ =>
        destruct (step r) as [[] r1|e r1] eqn:E1; [|discriminate]
    end.
    destruct (reader_event_field kvs evs name body v sp r r1
                Hev Hname Hsp E1) as [H1 H1o].
    intros E2. destruct (IH _ _ _ H1 E2) as [H2 H2o].
    split; [exact H2|].
    intros other Hne. rewrite H2o by assumption. now apply H1o.
Qed.

(** The loop over the names of the source's events. *)
Lemma reader_event_names (kvs evs : list (string * value C))
      (names : list string) :
  dict_get "events" kvs = Some (PDict evs) ->
  forall r r' : Rids C,
    for_each (map PStr names)
      (fun d : value C =>
         match d with
         | PStr name =>
             modify (fun st =>
                       set_events C
                         (dict_set name (new_Spectral C (PStr "") (PStr ""))
                                   (events C st)) st) ;;;
             for_each spectral_fields
               (fun v =>
                  devents <- lift (py_getitem C (PDict kvs) "events") ;;
                  dev <- lift (py_getitem C devents name) ;;
                  if_present C (sfield_name v) dev
                    (fun x =>
                       st <- get_state ;;
                       e <- lift (setattr_in C name v x (events C st)) ;;
                       modify (set_events C e)))
         | PList _ | PDict _ => raise TypeError
         | PNone | PBool _ | PNum _ => raise OutOfModel
         end) r
    = Ok tt r' ->
    (forall name body,
        In name names -> dict_get name evs = Some body ->
        dict_get name (events C r') = Some (loaded_event C body))
    /\ (forall name,
          ~ In name names ->
          dict_get name (events C r') = dict_get name (events C r)).
Proof.
  intros Hev.
  induction names as [|k names IH]; intros r r'; cbn [map for_each].
  - intros H. inversion H; subst. split; [contradiction|auto].
  - unfold bind at 1. unfold bind at 1. unfold modify at 1.
    cbv beta iota.
    match goal with
    | |- match ?fields with _ => _ end = _ -> _ =>
        destruct fields as [[] r2|e r2] eqn:E1; [|discriminate]
    end.
    intros E2. destruct (IH _ _ E2) as [Hin Hout].
    assert (Hk : forall body,
               dict_get k evs = Some body ->
               dict_get k (events C r2) = Some (loaded_event C body)
               /\ (forall other, other <> k ->
                                 dict_get other (events C r2)
                                 = dict_get other (events C r))).
    { intros body Hb.
      destruct (reader_event_fields kvs evs k body spectral_fields Hev Hb
                  (new_Spectral C (PStr "") (PStr ""))
                  (set_events C
                     (dict_set k (new_Spectral C (PStr "") (PStr ""))
                               (events C r)) r)
                  r2 (dict_get_set_eq _ _ _) E1) as [H1 H1o].
      split; [exact H1|].
      intros other Hne. rewrite H1o by assumption.
      simpl. now apply dict_get_set_ne. }
    assert (Hk' : dict_get k evs = None ->
                  forall other, other <> k ->
                                dict_get other (events C r2)
                                = dict_get other (events C r)).
    { intros Hnone. exfalso. revert E1. simpl for_each.
      unfold bind at 1. unfold bind at 1.
      unfold lift at 1, py_getitem at 1. unfold value in *.
      rewrite Hev. unfold ret at 1. unfold bind at 1.
      unfold lift at 1, py_getitem at 1. rewrite Hnone.
      discriminate. }
    split.
    + intros name body [->|Hn] Hb.
      * destruct (in_dec string_dec name names) as [Hi|Hi].
        -- now apply Hin.
        -- rewrite Hout by assumption. now apply Hk.
      * now apply Hin.
    + intros name Hn.
      assert (Hne : name <> k) by (intros ->; apply Hn; now left).
      rewrite Hout by (intros Hi; apply Hn; now right).
      destruct (dict_get k evs) as [body|] eqn:Eb.
      * now apply (Hk body eq_refl).
      * now apply Hk'.
Qed.

Lemma dict_get_in_keys {V} (k : string) (d : list (string * V)) (v : V) :
  dict_get k d = Some v -> In k (map fst d).
Proof.
  induction d as [|[k' v'] d IH]; simpl; [discriminate|].
  destruct (String.eqb_spec k k'); [subst; auto|]. intros H. right. auto.
Qed.

(** X11: a load replaces the events the source names.  After a successful
    load of an object whose [events] is an object, every event named there
    is a new record holding exactly the fields its body has (whatever the
    document held under that name before), and the events the source does
    not name are as they were. *)
Theorem rid_reader_replaces_events (kvs evs : list (string * value C))
        (st st' : Rids C) :
  rid_reader_data C (PDict kvs) st = Ok tt st' ->
  dict_get "events" kvs = Some (PDict evs) ->
  (forall name body,
      dict_get name evs = Some body ->
      dict_get name (events C st') = Some (loaded_event C body))
  /\ (forall name,
        dict_get name evs = None ->
        dict_get name (events C st') = dict_get name (events C st)).
Proof.
  intros Hload Hev. revert Hload.
  unfold rid_reader_data.
  set (A := if_present C "comment" (PDict kvs) (append_comment C)).
  set (B := for_each dattrs _).
  set (U := for_each uattrs _).
  assert (HA : keeps C (events C) A).
  { subst A. unfold if_present. repeat keeps_step.
    apply keeps_append_comment. reflexivity. }
  assert (HB : keeps C (events C) B).
  { subst B. repeat keeps_step. }
  assert (HU : keeps C (events C) U).
  { subst U. apply keeps_for_each. intros d. unfold if_present.
    repeat keeps_step. apply keeps_set_uattr. reflexivity. }
  pose proof (keeps_reader_cal (events C) (PDict kvs)
                (fun _ _ => eq_refl)) as HC.
  unfold bind.
  specialize (HA st). destruct (A st) as [[] st1|]; [|discriminate].
  specialize (HB st1). destruct (B st1) as [[] st2|]; [|discriminate].
  specialize (HU st2). destruct (U st2) as [[] st3|]; [|discriminate].
  specialize (HC st3).
  destruct (rid_reader_cal C (PDict kvs) st3) as [[] st4|]; [|discriminate].
  simpl in *.
  assert (E04 : events C st4 = events C st) by congruence.
  unfold rid_reader_events, bind.
  unfold lift at 1, py_in at 1, dict_has. unfold value in *. rewrite Hev.
  unfold ret at 1. unfold lift at 1, py_getitem at 1. rewrite Hev.
  unfold ret at 1. unfold lift at 1, py_iter at 1. unfold ret at 1.
  rewrite <- map_map with (f := fst) (g := PStr).
  intros Hloop.
  destruct (reader_event_names kvs evs (map fst evs) Hev st4 st' Hloop)
    as [Hin Hout].
  split.
  - intros name body Hb. apply Hin; [|exact Hb].
    eapply dict_get_in_keys, Hb.
  - intros name Hn. rewrite <- E04. apply Hout.
    intros Hi. clear - Hn Hi.
    induction evs as [|[k v] evs IH]; [contradiction|].
    simpl in *. destruct (String.eqb_spec name k); [discriminate|].
    destruct Hi as [->|Hi]; [congruence|auto].
Qed.

Lemma cal_setattr_ok (pol : string) (v : sfield) (x : value C)
      (r : Rids C) (sp : Spectral C) :
  dict_get pol (cal C r) = Some sp ->
  (st <- get_state ;;
   c <- lift (setattr_in C pol v x (cal C st)) ;;
   modify (set_cal C c)) r
  = Ok tt (set_cal C (dict_set pol (spectral_setattr C v x sp) (cal C r)) r).
Proof.
  intros H. unfold bind, get_state, setattr_in. rewrite H. reflexivity.
Qed.

(** One field of one calibration record of the source. *)
Lemma reader_cal_field (kvs cs : list (string * value C))
      (pol : string) (body : value C) (v : sfield)
      (sp : Spectral C) (r r' : Rids C) :
  dict_get "cal" kvs = Some (PDict cs) ->
  dict_get pol cs = Some body ->
  dict_get pol (cal C r) = Some sp ->
  (dcal <- lift (py_getitem C (PDict kvs) "cal") ;;
   dpol <- lift (py_getitem C dcal pol) ;;
   if_present C (sfield_name v) dpol
     (fun x =>
        st <- get_state ;;
        c <- lift (setattr_in C pol v x (cal C st)) ;;
        modify (set_cal C c))) r
  = Ok tt r' ->
  dict_get pol (cal C r') = Some (apply_field C body sp v)
  /\ (forall other, other <> pol ->
                    dict_get other (cal C r') = dict_get other (cal C r)).
Proof.
  intros Hcal Hpol Hsp.
  unfold bind at 1. unfold lift at 1, py_getitem at 1.
  unfold value in *. rewrite Hcal. unfold ret at 1.
  unfold bind at 1. unfold lift at 1, py_getitem at 1.
  rewrite Hpol. unfold ret at 1.
  unfold apply_field.
  destruct body as [| b | x | s | l | kv].
  - discriminate.
  - discriminate.
  - discriminate.
  - unfold if_present, bind, lift, py_in, py_getitem, ret, raise.
    destruct (contains (sfield_name v) s); [discriminate|].
    intros H. inversion H; subst. auto.
  - unfold if_present, bind, lift, py_in, py_getitem, ret, raise.
    destruct (existsb _ l); [discriminate|].
    intros H. inversion H; subst. auto.
  - rewrite if_present_dict. unfold value in *.
    destruct (dict_get (sfield_name v) kv) as [x|].
    + rewrite (cal_setattr_ok pol v x r sp Hsp).
      intros H. inversion H; subst. simpl. split.
      * apply dict_get_set_eq.
      * intros other Hne. now apply dict_get_set_ne.
    + intros H. inversion H; subst. auto.
Qed.

Lemma reader_cal_fields (kvs cs : list (string * value C))
      (pol : string) (body : value C) (fields : list sfield) :
  dict_get "cal" kvs = Some (PDict cs) ->
  dict_get pol cs = Some body ->
  forall (sp : Spectral C) (r r' : Rids C),
    dict_get pol (cal C r) = Some sp ->
    for_each fields
      (fun v =>
         dcal <- lift (py_getitem C (PDict kvs) "cal") ;;
         dpol <- lift (py_getitem C dcal pol) ;;
         if_present C (sfield_name v) dpol
           (fun x =>
              st <- get_state ;;
              c <- lift (setattr_in C pol v x (cal C st)) ;;
              modify (set_cal C c))) r
    = Ok tt r' ->
    dict_get pol (cal C r')
    = Some (fold_left (apply_field C body) fields sp)
    /\ (forall other, other <> pol ->
                      dict_get other (cal C r') = dict_get other (cal C r)).
Proof.
  intros Hcal Hpol.
  induction fields as [|v fields IH]; intros sp r r' Hsp; cbn [for_each].
  - intros H. inversion H; subst. auto.
  - unfold bind at 1.
    match goal with
    | |- match ?step with _ => _ end = _ -> _ =>
        destruct step as [[] r1|e r1] eqn:E1; [|discriminate]
    end.
    destruct (reader_cal_field kvs cs pol body v sp r r1
                Hcal Hpol Hsp E1) as [H1 H1o].
    intros E2. destruct (IH _ _ _ H1 E2) as [H2 H2o].
    split; [exact H2|].
    intros other Hne. rewrite H2o by assumption. now apply H1o.
Qed.

(** The pass of the calibration loop for one polarization. *)
Lemma reader_cal_pol (kvs cs : list (string * value C)) (pol : string)
      (sp : Spectral C) (r r' : Rids C) :
  dict_get "cal" kvs = Some (PDict cs) ->
  dict_get pol (cal C r) = Some sp ->
  (dcal <- lift (py_getitem C (PDict kvs) "cal") ;;
   b <- lift (py_in C pol dcal) ;;
   if b then
     for_each spectral_fields
       (fun v =>
          dcal <- lift (py_getitem C (PDict kvs) "cal") ;;
          dpol <- lift (py_getitem C dcal pol) ;;
          if_present C (sfield_name v) dpol
            (fun x =>
               st <- get_state ;;
               c <- lift (setattr_in C pol v x (cal C st)) ;;
               modify (set_cal C c)))
   else ret tt) r
  = Ok tt r' ->
  dict_get pol (cal C r')
  = Some (match dict_get pol cs with
          | Some body => fold_left (apply_field C body) spectral_fields sp
          | None => sp
          end)
  /\ (forall other, other <> pol ->
                    dict_get other (cal C r') = dict_get other (cal C r)).
Proof.
  intros Hcal Hsp.
  unfold bind at 1. unfold lift at 1, py_getitem at 1.
  unfold value in *. rewrite Hcal. unfold ret at 1.
  unfold bind at 1. unfold lift at 1, py_in at 1, dict_has.
  destruct (dict_get pol cs) as [body|] eqn:Eb; unfold ret at 1.
  - intros H. eapply reader_cal_fields; eauto.
  - intros H. inversion H; subst. auto.
Qed.

(** X12: a load merges the calibration records field by field.  After a
    successful load of an object whose [cal] is an object, the record of a
    polarization the source has keeps every field the source's body lacks
    and takes the others from it; the record of a polarization the source
    lacks is as it was. *)
Theorem rid_reader_merges_cal (kvs cs : list (string * value C))
        (st st' : Rids C) (spE spN : Spectral C) :
  rid_reader_data C (PDict kvs) st = Ok tt st' ->
  dict_get "cal" kvs = Some (PDict cs) ->
  dict_get "E" (cal C st) = Some spE ->
  dict_get "N" (cal C st) = Some spN ->
  dict_get "E" (cal C st')
  = Some (match dict_get "E" cs with
          | Some body => fold_left (apply_field C body) spectral_fields spE
          | None => spE
          end)
  /\ dict_get "N" (cal C st')
     = Some (match dict_get "N" cs with
             | Some body => fold_left (apply_field C body) spectral_fields spN
             | None => spN
             end).
Proof.
  intros Hload Hcal HE HN. revert Hload.
  unfold rid_reader_data.
  set (A := if_present C "comment" (PDict kvs) (append_comment C)).
  set (B := for_each dattrs _).
  set (U := for_each uattrs _).
  assert (HA : keeps C (cal C) A).
  { subst A. unfold if_present. repeat keeps_step.
    apply keeps_append_comment. reflexivity. }
  assert (HB : keeps C (cal C) B).
  { subst B. repeat keeps_step. }
  assert (HU : keeps C (cal C) U).
  { subst U. apply keeps_for_each. intros d. unfold if_present.
    repeat keeps_step. apply keeps_set_uattr. reflexivity. }
  unfold bind at 1.
  specialize (HA st). destruct (A st) as [[] st1|]; [|discriminate].
  unfold bind at 1.
  specialize (HB st1). destruct (B st1) as [[] st2|]; [|discriminate].
  unfold bind at 1.
  specialize (HU st2). destruct (U st2) as [[] st3|]; [|discriminate].
  simpl in HA, HB, HU.
  assert (E03 : cal C st3 = cal C st) by congruence.
  unfold bind at 1.
  pose proof (keeps_reader_events (cal C) (PDict kvs)
                (fun _ _ => eq_refl)) as HEv.
  destruct (rid_reader_cal C (PDict kvs) st3) as [[] st4|] eqn:Ecal;
    [|discriminate].
  intros Hev. specialize (HEv st4). rewrite Hev in HEv. simpl in HEv.
  rewrite HEv. clear Hev HEv.
  revert Ecal. unfold rid_reader_cal.
  unfold bind at 1. unfold lift at 1, py_in at 1, dict_has.
  unfold value in *. rewrite Hcal. unfold ret at 1.
  unfold polarizations. cbn [for_each].
  unfold bind at 1.
  match goal with
  | |- match ?step with _ => _ end = _ -> _ =>
      destruct step as [[] r1|e r1] eqn:E1; [|discriminate]
  end.
  rewrite <- E03 in HE, HN.
  destruct (reader_cal_pol kvs cs "E" spE st3 r1 Hcal HE E1) as [H1 H1o].
  unfold bind at 1.
  match goal with
  | |- match ?step with _ => _ end = _ -> _ =>
      destruct step as [[] r2|e r2] eqn:E2; [|discriminate]
  end.
  assert (HN1 : dict_get "N" (cal C r1) = Some spN).
  { rewrite H1o by discriminate. exact HN. }
  destruct (reader_cal_pol kvs cs "N" spN r1 r2 Hcal HN1 E2) as [H2 H2o].
  unfold ret. intros H. inversion H; subst. split.
  - rewrite H2o by discriminate. exact H1.
  - exact H2.
Qed.

(** X14: a load is not all-or-nothing below the top level.  When the source
    is an object without a comment whose [channel_width] is an empty or
    all-whitespace string, the load raises [UnboundLocalError] after the
    direct fields have been merged: each of them already holds the source's
    value when the source has that key. *)
Theorem rid_reader_partial (kvs : list (string * value C)) (x : string)
        (st : Rids C) :
  dict_get "comment" kvs = None ->
  dict_get "channel_width" kvs = Some (PStr x) ->
  all_space x = true ->
  exists st2,
    rid_reader_data C (PDict kvs) st = Raise UnboundLocalError st2
    /\ (forall d,
          d_field C st2 d
          = match dict_get (dattr_name d) kvs with
            | Some v => v
            | None => d_field C st d
            end)
    /\ events C st2 = events C st
    /\ cal C st2 = cal C st.
Proof.
  intros Hc Hw Hx. apply split_nil_iff in Hx.
  unfold rid_reader_data. unfold bind at 1.
  rewrite if_present_dict. unfold value in *. rewrite Hc.
  unfold bind at 1.
  set (B := for_each dattrs _).
  assert (Kev : keeps C (events C) B) by (subst B; repeat keeps_step).
  assert (Kcal : keeps C (cal C) B) by (subst B; repeat keeps_step).
  specialize (Kev st). specialize (Kcal st).
  destruct (reader_direct_fields kvs st) as (st2 & E & Hd & _).
  subst B. unfold value in *. rewrite E in Kev, Kcal |- *.
  simpl in Kev, Kcal.
  exists st2. split; [|auto].
  unfold bind at 1. unfold uattrs. cbn [for_each]. unfold bind at 1.
  rewrite if_present_dict. simpl uattr_name. unfold value in *. rewrite Hw.
  unfold _set_uattr. rewrite Hx. reflexivity.
Qed.

End MergeFacts.

Section PassFacts.
Context (C : Collaborators).

Lemma process_pair_doc (pol : string) (am : string * string)
      (w w' : world C) :
  process_pair C pol am w = Ok tt w' ->
  (forall d, d_field C (doc C w') d = d_field C (doc C w) d)
  /\ same_header C (doc C w) (doc C w').
Proof.
  unfold process_pair, bind.
  pose proof (get_event_untouched C (peel_time_stamp C (fst am) ++ pol)
                (fst am) (snd am) pol w) as [_ Hf].
  destruct (get_event C _ (fst am) (snd am) pol w) as [[] w1|];
    [|discriminate].
  simpl in Hf. destruct Hf as (Hd & Hu & Huu & Hc & Hcal & _).
  destruct (os_remove C (fst am) w1) as [[] w2|] eqn:E2; [|discriminate].
  apply os_remove_ok in E2. destruct E2 as [_ ->].
  intros E3. apply os_remove_ok in E3. destruct E3 as [_ ->]. simpl.
  split; [exact Hd|]. repeat split; auto.
Qed.

Lemma for_each_pairs_doc (pol : string) (pairs : list (string * string)) :
  forall w w' : world C,
    for_each pairs (process_pair C pol) w = Ok tt w' ->
    (forall d, d_field C (doc C w') d = d_field C (doc C w) d)
    /\ same_header C (doc C w) (doc C w').
Proof.
  induction pairs as [|am pairs IH]; intros w w'; simpl.
  - unfold ret. intros H. inversion H; subst. repeat split.
  - unfold bind.
    destruct (process_pair C pol am w) as [[] w1|] eqn:E1; [|discriminate].
    apply process_pair_doc in E1.
    destruct E1 as (Hd & _ & Hu & Huu & Hc & Hcal).
    intros E2. apply IH in E2.
    destruct E2 as (Hd' & _ & Hu' & Huu' & Hc' & Hcal').
    split; [intros d; now rewrite Hd'|].
    split; [intros d _; now rewrite Hd'|].
    split; [intros d; now rewrite Hu'|].
    split; [intros d; now rewrite Huu'|].
    split; congruence.
Qed.

(** X13: a successful pass over a polarization with matched lists leaves
    the time stamp of that polarization's first [ave] file in the
    document's [time_stamp], and changes nothing else of the header, the
    comment or the calibration records. *)
Theorem process_pol_time_stamp (obs_per_file : Z) (f : file_lists)
        (pol a0 m0 : string) (la lm : list string) (w w' : world C) :
  f_get "ave" pol f = Some (a0 :: la) ->
  f_get "maxh" pol f = Some (m0 :: lm) ->
  length la = length lm ->
  process_pol C obs_per_file f pol w = Ok tt w' ->
  d_field C (doc C w') time_stamp = PStr (peel_time_stamp C a0)
  /\ same_header C (doc C w) (doc C w').
Proof.
  intros Hfa Hfm Hlen. unfold process_pol. rewrite Hfa, Hfm.
  assert (E : Nat.eqb (length (a0 :: la)) (length (m0 :: lm)) = true)
    by (apply Nat.eqb_eq; simpl; now rewrite Hlen).
  rewrite E. cbn [length Nat.eqb orb negb].
  unfold bind at 1. rewrite set_time_stamp_ok.
  unfold bind at 1.
  match goal with
  | |- match get_event C ?ev a0 m0 pol ?w0 with _ => _ end = _ -> _ =>
      pose proof (get_event_untouched C ev a0 m0 pol w0) as [_ Hf];
      destruct (get_event C ev a0 m0 pol w0) as [[] w1|]; [|discriminate]
  end.
  simpl in Hf. destruct Hf as (Hd & Hu & Huu & Hc & Hcal & _).
  intros E2. apply for_each_pairs_doc in E2.
  destruct E2 as (Hd' & _ & Hu' & Huu' & Hc' & Hcal').
  split.
  - rewrite Hd', Hd. reflexivity.
  - split; [|split; [|split; [|split]]].
    + intros d Hne. rewrite Hd', Hd.
      destruct d; try reflexivity. congruence.
    + intros d. now rewrite Hu', Hu.
    + intros d. now rewrite Huu', Huu.
    + now rewrite Hc', Hc.
    + now rewrite Hcal', Hcal.
Qed.

End PassFacts.

Section Rendering.
Context (C : Collaborators).

Lemma split_from_no_space (t : string) :
  forall cur rest : string,
    no_space t = true ->
    split_from cur (t ++ rest) = split_from (cur ++ t) rest.
Proof.
  induction t as [|c t IH]; intros cur rest; simpl.
  - intros _. f_equal. clear. induction cur; simpl; congruence.
  - destruct (is_space c); [discriminate|]. simpl. intros H.
    rewrite IH by assumption. f_equal.
    clear. induction cur; simpl; congruence.
Qed.

Lemma is_token_not_empty (t : string) :
  is_token t = true -> String.eqb t "" = false /\ no_space t = true.
Proof. destruct t; simpl; [discriminate|auto]. Qed.

(** Two tokens joined by one space split into those two tokens. *)
Lemma split_two_tokens (v0 v1 : string) :
  is_token v0 = true -> is_token v1 = true ->
  split (v0 ++ " " ++ v1) = [v0; v1].
Proof.
  intros H0 H1.
  apply is_token_not_empty in H0. destruct H0 as [E0 N0].
  apply is_token_not_empty in H1. destruct H1 as [E1 N1].
  unfold split. rewrite split_from_no_space by assumption. simpl.
  rewrite E0.
  replace v1 with (v1 ++ "") at 1
    by (clear; induction v1; simpl; congruence).
  rewrite split_from_no_space by assumption. simpl. now rewrite E1.
Qed.

(** What [rid_writer] stores under the key of a unit-split field. *)
Lemma writer_ds_unit_field (r : Rids C) (ds : list (string * value C))
      (d : uattr) :
  writer_ds C r = Done (PDict ds) ->
  dict_get (uattr_name d) ds
  = Some (PStr (py_str C (u_field C r d) ++ " " ++ py_str C (u_unit C r d))).
Proof.
  unfold writer_ds. destruct (writer_cal C r); [|discriminate].
  intros H. inversion H; subst. destruct d; reflexivity.
Qed.

(** X15: a unit-split field that is set survives a save and a load.  When
    its value is a single token that [float] rejects and its unit is a
    single token, the string [rid_writer] stores for it is read back by
    [_set_uattr] as the same value and the same unit; when its value is a
    number whose rendering is a token that [float] reads back as that
    number, likewise. *)
Theorem unit_split_survives (d : uattr) (r : Rids C)
        (ds : list (string * value C)) (v1 : string) (st : Rids C) :
  writer_ds C r = Done (PDict ds) ->
  u_unit C r d = PStr v1 ->
  is_token v1 = true ->
  (forall v0,
      u_field C r d = PStr v0 ->
      is_token v0 = true ->
      float_of_string C v0 = None ->
      exists x st',
        dict_get (uattr_name d) ds = Some x
        /\ _set_uattr C d x st = Ok tt st'
        /\ u_field C st' d = PStr v0
        /\ u_unit C st' d = PStr v1)
  /\ (forall f,
        u_field C r d = PNum f ->
        is_token (str_of_number C f) = true ->
        float_of_string C (str_of_number C f) = Some f ->
        exists x st',
          dict_get (uattr_name d) ds = Some x
          /\ _set_uattr C d x st = Ok tt st'
          /\ u_field C st' d = PNum f
          /\ u_unit C st' d = PStr v1).
Proof.
  intros Hds Hu Ht1. split.
  - intros v0 Hv Ht0 Hf.
    pose proof (writer_ds_unit_field r ds d Hds) as Hk.
    rewrite Hv, Hu in Hk. simpl py_str in Hk.
    eexists. eexists. split; [exact Hk|].
    split; [apply (set_uattr_many C d _ v0 v1 []);
            now apply split_two_tokens|].
    rewrite Hf. apply u_field_after.
  - intros f Hv Ht0 Hf.
    pose proof (writer_ds_unit_field r ds d Hds) as Hk.
    rewrite Hv, Hu in Hk. simpl py_str in Hk.
    eexists. eexists. split; [exact Hk|].
    split; [apply (set_uattr_many C d _ (str_of_number C f) v1 []);
            now apply split_two_tokens|].
    rewrite Hf. apply u_field_after.
Qed.

End Rendering.

(** * The properties on concrete inputs *)

Section Concrete.
Import Sample.

(** C1 fails as stated: in a directory with two pairs for polarization E,
    one cycle builds the baseline event from the first pair, then builds a
    peak event from that same pair and removes its two files; no capture is
    left on the disk. *)
Lemma baseline_pair_is_consumed :
  value_of (scan_cycle collaborators "d" 100 two_pairs) = Some true
  /\ log _ (state_of (scan_cycle collaborators "d" 100 two_pairs))
     = [AScan "d"; ABuild "baseline_E" "d/ave.E.001" "d/maxh.E.001";
        ABuild "001E" "d/ave.E.001" "d/maxh.E.001";
        ARemove "d/ave.E.001"; ARemove "d/maxh.E.001";
        ABuild "002E" "d/ave.E.002" "d/maxh.E.002";
        ARemove "d/ave.E.002"; ARemove "d/maxh.E.002";
        AWrite "d/001.ridz"]
  /\ dict_has "d/ave.E.001" (disk _ two_pairs) = true
  /\ dict_has "d/maxh.E.001" (disk _ two_pairs) = true
  /\ dict_has "d/ave.E.001"
              (disk _ (state_of (scan_cycle collaborators "d" 100 two_pairs)))
     = false
  /\ dict_has "d/maxh.E.001"
              (disk _ (state_of (scan_cycle collaborators "d" 100 two_pairs)))
     = false.
Proof. repeat split; vm_compute; reflexivity. Qed.

Lemma process_pol_consumes_witness :
  f_get "ave" "E" two_pairs_lists = Some ["d/ave.E.001"; "d/ave.E.002"]
  /\ f_get "maxh" "E" two_pairs_lists = Some ["d/maxh.E.001"; "d/maxh.E.002"]
  /\ ["d/ave.E.001"; "d/ave.E.002"] <> []
  /\ length ["d/ave.E.001"; "d/ave.E.002"]
     = length ["d/maxh.E.001"; "d/maxh.E.002"]
  /\ NoDup (map fst (disk _ two_pairs))
  /\ value_of (process_pol collaborators 100 two_pairs_lists "E" two_pairs)
     = Some tt
  /\ dict_get "d/ave.E.001"
       (disk _ (state_of (process_pol collaborators 100 two_pairs_lists "E"
                                      two_pairs))) = None.
Proof.
  assert (Hnd : NoDup (map fst (disk _ two_pairs))).
  { simpl. repeat (constructor; [simpl; intuition discriminate|]).
    constructor. }
  assert (Hok : value_of (process_pol collaborators 100 two_pairs_lists "E"
                                      two_pairs) = Some tt)
    by (vm_compute; reflexivity).
  split; [reflexivity|]. split; [reflexivity|]. split; [discriminate|].
  split; [reflexivity|]. split; [exact Hnd|]. split; [exact Hok|].
  destruct (process_pol_consumes collaborators 100 two_pairs_lists "E"
              ["d/ave.E.001"; "d/ave.E.002"]
              ["d/maxh.E.001"; "d/maxh.E.002"] two_pairs
              (state_of (process_pol collaborators 100 two_pairs_lists "E"
                                     two_pairs))
              eq_refl eq_refl ltac:(discriminate) eq_refl Hnd
              (ok_value _ _ Hok))
    as (a0 & m0 & la' & lm' & Ea & Em & _ & _ & _ & _ & _ & _ & Hlast).
  inversion Ea; subst. apply Hlast. lia.
Defined.

(** C2 fails as stated: the fresh document, saved and loaded into a fresh
    document, comes back with the string ["None"] in [channel_width], which
    was unset. *)
Lemma fresh_document_not_restored :
  raised (rid_writer collaborators "out.ridz" true empty_world) = None
  /\ raised (rid_reader collaborators "out.ridz"
               (mkWorld _ fresh
                  (disk _ (state_of (rid_writer collaborators "out.ridz" true
                                                empty_world)))
                  (dirs _ empty_world) []))
     = None
  /\ u_field _ (doc _ empty_world) channel_width = PNone
  /\ u_field _
       (doc _ (state_of
                 (rid_reader collaborators "out.ridz"
                    (mkWorld _ fresh
                       (disk _ (state_of (rid_writer collaborators "out.ridz"
                                                     true empty_world)))
                       (dirs _ empty_world) []))))
       channel_width = PStr "None".
Proof. repeat split; vm_compute; reflexivity. Qed.

Lemma save_then_load_witness :
  comment _ (doc _ set_document) = PNone
  /\ (forall d, u_field _ (doc _ set_document) d = PNone)
  /\ (forall d, u_unit _ (doc _ set_document) d = PNone)
  /\ cal _ (doc _ set_document)
     = [("E", calibration "E"); ("N", calibration "N")]
  /\ events _ (doc _ set_document) = []
  /\ writer_ds key_sorting (doc _ set_document) = Done written
  /\ (is_ridz "out.ridz" = true ->
      gzip_read key_sorting
        (gzip_write key_sorting
           (fix_json_list key_sorting (json_dumps key_sorting written)))
      = Some (fix_json_list key_sorting (json_dumps key_sorting written)))
  /\ json_load key_sorting
       (fix_json_list key_sorting (json_dumps key_sorting written))
     = Some decoded
  /\ decoded <> written
  /\ same_entries key_sorting written decoded
  /\ float_of_string key_sorting "None" = None
  /\ exists w1 w2,
      rid_writer key_sorting "out.ridz" true set_document = Ok tt w1
      /\ rid_reader key_sorting "out.ridz"
           (mkWorld _ (new_Rids _ PNone) (disk _ w1) (dirs _ w1) [])
         = Ok tt w2
      /\ d_field _ (doc _ w2) instrument = PStr "SA"
      /\ d_field _ (doc _ w2) freq_unit = PStr "MHz"
      /\ cal _ (doc _ w2)
         = [("E", calibration "E"); ("N", calibration "N")]
      /\ u_field _ (doc _ w2) threshold = PStr "None".
Proof.
  assert (Hds : writer_ds key_sorting (doc _ set_document) = Done written)
    by (vm_compute; reflexivity).
  assert (Hgz : is_ridz "out.ridz" = true ->
                gzip_read key_sorting
                  (gzip_write key_sorting
                     (fix_json_list key_sorting
                        (json_dumps key_sorting written)))
                = Some (fix_json_list key_sorting
                          (json_dumps key_sorting written)))
    by (intros _; reflexivity).
  assert (Hjs : json_load key_sorting
                  (fix_json_list key_sorting (json_dumps key_sorting written))
                = Some decoded) by (vm_compute; reflexivity).
  assert (Hne : decoded <> written) by discriminate.
  assert (Hsame : same_entries key_sorting written decoded).
  { split.
    - split; [reflexivity|]. split; [reflexivity|].
      intros k Hk. simpl in Hk.
      repeat (destruct Hk as [<-|Hk]; [reflexivity|]). contradiction.
    - eexists. eexists. split; [reflexivity|]. split; [reflexivity|].
      split.
      + split; [reflexivity|]. split; [reflexivity|]. intros k [].
      + intros pol Hpol. simpl in Hpol.
        destruct Hpol as [<-|[<-|[]]];
          (eexists; eexists; split; [reflexivity|]; split; [reflexivity|];
           split; [reflexivity|]; split; [reflexivity|];
           intros k Hk; simpl in Hk;
           repeat (destruct Hk as [<-|Hk]; [reflexivity|]); contradiction). }
  split; [reflexivity|]. split; [reflexivity|]. split; [reflexivity|].
  split; [reflexivity|]. split; [reflexivity|]. split; [exact Hds|].
  split; [exact Hgz|]. split; [exact Hjs|]. split; [exact Hne|].
  split; [exact Hsame|]. split; [reflexivity|].
  destruct (save_then_load key_sorting "out.ridz" set_document
              (calibration "E") (calibration "N") written decoded
              eq_refl (fun _ => eq_refl) (fun _ => eq_refl) eq_refl eq_refl
              Hds Hgz Hjs Hsame eq_refl)
    as (w1 & w2 & Hw & Hr & Hd & _ & Hcal & _ & Hu).
  exists w1, w2. split; [exact Hw|]. split; [exact Hr|].
  split; [exact (Hd instrument)|]. split; [exact (Hd freq_unit)|].
  split; [exact Hcal|]. apply Hu.
Defined.

(** C3 fails as stated: a source whose JSON text is an array, which is
    well-formed JSON but no object, is loaded without any error. *)
Lemma array_source_is_accepted :
  dict_get "x.rids" (disk _ array_file) = Some (Text (Some (PList [])))
  /\ json_load collaborators (Text (Some (PList []))) = Some (PList [])
  /\ raised (rid_reader collaborators "x.rids" array_file) = None.
Proof. repeat split. Qed.

Lemma rid_reader_rejects_witness :
  dict_get "bad.rids" (disk _ malformed_file) = Some (Text None)
  /\ rid_reader collaborators "bad.rids" malformed_file
     = Raise ValueError malformed_file.
Proof.
  split; [reflexivity|].
  destruct (rid_reader_rejects collaborators "bad.rids" malformed_file
              (Text None) eq_refl (Some (Text None)) eq_refl)
    as (_ & Hbad & _).
  apply (Hbad (Text None)); reflexivity.
Defined.

Lemma get_event_peak_witness :
  is_baseline "001E" = false
  /\ dict_get "d/ave.E.001" (disk _ short_ave)
     = Some (Capture ["1.0"; "1.0"; "1.0"] ["0"; "0"; "0"])
  /\ dict_get "d/maxh.E.001" (disk _ short_ave) = Some (spectrum 10)
  /\ Forall (in_bounds (repeat "1.0" 10)) [5%Z]
  /\ ~ Forall (in_bounds ["0"; "0"; "0"]) [5%Z]
  /\ exists w' ev,
      get_event collaborators "001E" "d/ave.E.001" "d/maxh.E.001" "E"
                short_ave = Ok tt w'
      /\ dict_get "001E" (events _ (doc _ w')) = Some ev
      /\ sp_freq _ ev = PList [PNum "1.0"]
      /\ sp_maxhold _ ev = Some (PList [PNum "1"])
      /\ sp_ave _ ev = None.
Proof.
  assert (Hin : forall l : list string,
             length l = 10 -> Forall (in_bounds l) [5%Z]).
  { intros l Hl. constructor; [|constructor]. unfold in_bounds.
    rewrite Hl. lia. }
  assert (Hout : ~ Forall (in_bounds ["0"; "0"; "0"]) [5%Z]).
  { intros H. inversion H as [|? ? Hb _]. unfold in_bounds in Hb.
    simpl in Hb. lia. }
  split; [reflexivity|]. split; [reflexivity|]. split; [reflexivity|].
  split; [now apply Hin|]. split; [exact Hout|].
  destruct (get_event_peak collaborators "001E" "d/ave.E.001"
              "d/maxh.E.001" "E" short_ave
              (Capture ["1.0"; "1.0"; "1.0"] ["0"; "0"; "0"]) (spectrum 10)
              (["1.0"; "1.0"; "1.0"], ["0"; "0"; "0"])
              (repeat "1.0" 10,
               ["0"; "0"; "0"; "0"; "0"; "1"; "0"; "0"; "0"; "0"])
              [5%Z] eq_refl eq_refl eq_refl eq_refl eq_refl eq_refl
              (Hin (repeat "1.0" 10) eq_refl)
              (Hin ["0"; "0"; "0"; "0"; "0"; "1"; "0"; "0"; "0"; "0"]
                   eq_refl))
    as (w' & ev & fr & mx & Hg & He & Hfr & Hf & Hmx & Hm & _ & Hnone).
  exists w', ev. split; [exact Hg|]. split; [exact He|].
  inversion Hfr; subst. inversion Hmx; subst.
  split; [exact Hf|]. split; [exact Hm|]. apply Hnone, Hout.
Defined.

Lemma set_uattr_unit_split_witness :
  split "12.5 MHz" = ["12.5"; "MHz"]
  /\ float_of_string collaborators "12.5" = Some "12.5"
  /\ float_of_string collaborators "ongoing" = None
  /\ (exists st',
        _set_uattr collaborators channel_width (PStr "12.5 MHz") fresh
        = Ok tt st'
        /\ u_field _ st' channel_width = PNum "12.5"
        /\ u_unit _ st' channel_width = PStr "MHz")
  /\ (exists st',
        _set_uattr collaborators channel_width (PStr "ongoing maxhold") fresh
        = Ok tt st'
        /\ u_field _ st' channel_width = PStr "ongoing"
        /\ u_unit _ st' channel_width = PStr "maxhold").
Proof.
  repeat (split; [reflexivity|]).
  destruct (set_uattr_unit_split collaborators channel_width fresh)
    as (_ & _ & Hnum & Hstr).
  split; [apply Hnum|apply Hstr]; reflexivity.
Defined.

Lemma get_event_baseline_witness :
  is_baseline "baseline_E" = true
  /\ dict_get "d/ave.E.001" (disk _ two_pairs) = Some (spectrum 10)
  /\ dict_get "d/maxh.E.001" (disk _ two_pairs) = Some (spectrum 10)
  /\ exists w' ev,
      get_event collaborators "baseline_E" "d/ave.E.001" "d/maxh.E.001" "E"
                two_pairs = Ok tt w'
      /\ dict_get "baseline_E" (events _ (doc _ w')) = Some ev
      /\ sp_freq _ ev = PList (map PNum (repeat "1.0" 10))
      /\ hipk _ (doc _ w') = None.
Proof.
  repeat (split; [reflexivity|]).
  destruct (get_event_baseline collaborators "baseline_E" "d/ave.E.001"
              "d/maxh.E.001" "E" two_pairs (spectrum 10) (spectrum 10)
              (repeat "1.0" 10,
               ["0"; "0"; "0"; "0"; "0"; "1"; "0"; "0"; "0"; "0"])
              (repeat "1.0" 10,
               ["0"; "0"; "0"; "0"; "0"; "1"; "0"; "0"; "0"; "0"])
              eq_refl eq_refl eq_refl eq_refl eq_refl)
    as (w' & ev & Hg & He & _ & Hf & _ & _ & Hk & _).
  exists w', ev. repeat split; try assumption.
  apply Hf. simpl. lia.
Defined.


Lemma process_files_terminates_witness :
  value_of (scan_cycle collaborators "d" 100 empty_world) = Some false
  /\ (0 + 1 <= 1000)%Z
  /\ while_loop collaborators 1 "d" 100 1000 0 empty_world
     = Ok Finished (state_of (scan_cycle collaborators "d" 100 empty_world))
  /\ scans (log _ (state_of (process_files collaborators "d" 100 1000
                                           two_pairs)))
     <= 0 + 1000.
Proof.
  assert (Hv : value_of (scan_cycle collaborators "d" 100 empty_world)
               = Some false) by (vm_compute; reflexivity).
  destruct (process_files_terminates collaborators "d" 100 1000 two_pairs)
    as (_ & _ & Hb & Hstop).
  split; [exact Hv|]. split; [lia|]. split; [|exact Hb].
  apply (Hstop 0 0%Z empty_world
               (state_of (scan_cycle collaborators "d" 100 empty_world))
               false (ok_value _ _ Hv)); [reflexivity|lia].
Defined.

Lemma append_comment_accumulates_witness :
  comment _ fresh = PNone
  /\ exists st',
      (append_comment collaborators (PStr "a") ;;;
       append_comment collaborators (PStr "b")) fresh = Ok tt st'
      /\ comment _ st' = PStr ("a" ++ nl ++ "b").
Proof.
  split; [reflexivity|].
  destruct (append_comment_accumulates collaborators fresh)
    as (_ & _ & _ & Hab).
  apply Hab. reflexivity.
Defined.

Lemma set_uattr_no_token_witness :
  all_space "  " = true
  /\ _set_uattr collaborators threshold (PStr "  ") fresh
     = Raise UnboundLocalError fresh.
Proof.
  split; [reflexivity|].
  apply (set_uattr_no_token collaborators threshold "  " fresh).
  reflexivity.
Defined.

End Concrete.

Section FurtherConcrete.
Import Sample.

Lemma process_files_no_loops_witness :
  (0 <= 0)%Z
  /\ process_files collaborators "d" 100 0 two_pairs = Ok Finished two_pairs.
Proof.
  split; [lia|].
  apply (process_files_no_loops collaborators "d" 100 0 two_pairs). lia.
Defined.


Lemma process_files_missing_directory_witness :
  (1 <= 1000)%Z
  /\ is_dir "d" (dirs _ no_directory) = false
  /\ process_files collaborators "d" 100 1000 no_directory
     = Raise OSError (mkWorld _ fresh [] ["."] [AScan "d"])
  /\ raised (process_files collaborators "" 100 1000 two_pairs)
     = Some OSError.
Proof.
  split; [lia|]. split; [reflexivity|]. split.
  - apply (process_files_missing_directory collaborators "d" 100 1000
             no_directory); [lia|right; reflexivity].
  - rewrite (process_files_missing_directory collaborators "" 100 1000
               two_pairs); [reflexivity|lia|left; reflexivity].
Defined.


Lemma get_event_unreadable_witness :
  value_of (read_spectrum collaborators "d/ave.E.001" "E" empty_world) = None
  /\ state_of (get_event collaborators "001E" "d/ave.E.001" "d/maxh.E.001"
                         "E" empty_world) = empty_world.
Proof.
  split; [reflexivity|].
  apply (get_event_unreadable collaborators "001E" "d/ave.E.001"
           "d/maxh.E.001" "E" empty_world).
  left. reflexivity.
Defined.

Lemma get_event_peak_out_of_range_witness :
  is_baseline "001E" = false
  /\ dict_get "d/maxh.E.001" (disk _ short_freq)
     = Some (Capture ["1.0"]
                     ["0"; "0"; "0"; "0"; "0"; "1"; "0"; "0"; "0"; "0"])
  /\ ~ Forall (in_bounds ["1.0"]) [5%Z]
  /\ exists w',
      get_event collaborators "001E" "d/ave.E.001" "d/maxh.E.001" "E"
                short_freq = Raise IndexError w'
      /\ dict_get "001E" (events _ (doc _ w'))
         = Some (new_Spectral _ (PStr "E") (PStr "")).
Proof.
  assert (Hout : ~ Forall (in_bounds ["1.0"]) [5%Z]).
  { intros H. inversion H as [|? ? Hb _]. unfold in_bounds in Hb.
    simpl in Hb. lia. }
  split; [reflexivity|]. split; [reflexivity|]. split; [exact Hout|].
  destruct (get_event_peak_out_of_range collaborators "001E" "d/ave.E.001"
              "d/maxh.E.001" "E" short_freq (spectrum 10)
              (Capture ["1.0"]
                       ["0"; "0"; "0"; "0"; "0"; "1"; "0"; "0"; "0"; "0"])
              (repeat "1.0" 10,
               ["0"; "0"; "0"; "0"; "0"; "1"; "0"; "0"; "0"; "0"])
              (["1.0"], ["0"; "0"; "0"; "0"; "0"; "1"; "0"; "0"; "0"; "0"])
              [5%Z] eq_refl eq_refl eq_refl eq_refl eq_refl eq_refl Hout)
    as (w' & Hg & He & _).
  exists w'. split; assumption.
Defined.

Lemma process_pair_keeps_failed_witness :
  raised (get_event collaborators
            (peel_time_stamp collaborators "d/ave.E.001" ++ "E")
            "d/ave.E.001" "d/maxh.E.001" "E" short_freq) = Some IndexError
  /\ raised (process_pair collaborators "E" ("d/ave.E.001", "d/maxh.E.001")
                          short_freq) = Some IndexError
  /\ dict_has "d/ave.E.001"
       (disk _ (state_of (process_pair collaborators "E"
                            ("d/ave.E.001", "d/maxh.E.001") short_freq)))
     = true
  /\ dict_has "d/maxh.E.001"
       (disk _ (state_of (process_pair collaborators "E"
                            ("d/ave.E.001", "d/maxh.E.001") short_freq)))
     = true
  /\ log _ (state_of (process_pair collaborators "E"
                        ("d/ave.E.001", "d/maxh.E.001") short_freq)) = [].
Proof.
  assert (Hr : raised (get_event collaborators
                         (peel_time_stamp collaborators "d/ave.E.001" ++ "E")
                         "d/ave.E.001" "d/maxh.E.001" "E" short_freq)
               = Some IndexError) by (vm_compute; reflexivity).
  destruct (process_pair_keeps_failed collaborators "E"
              ("d/ave.E.001", "d/maxh.E.001") short_freq IndexError Hr)
    as (Hp & Hd & Hl).
  split; [exact Hr|]. split; [exact Hp|].
  rewrite Hd, Hl. repeat split.
Defined.

Lemma classify_groups_witness :
  existsb (stray collaborators)
          ["ave.E.001"; "ave.E.002"; "maxh.E.001"; "maxh.E.002"; "notes.txt"]
  = false
  /\ classify collaborators "d"
       ["ave.E.001"; "ave.E.002"; "maxh.E.001"; "maxh.E.002"; "notes.txt"]
       no_files false
     = Done (two_pairs_lists, true)
  /\ existsb (stray collaborators) ["ave.X.001"] = true
  /\ classify collaborators "d" ["ave.X.001"] no_files false = Fail KeyError.
Proof.
  split; [reflexivity|].
  destruct (classify_groups collaborators "d"
              ["ave.E.001"; "ave.E.002"; "maxh.E.001"; "maxh.E.002";
               "notes.txt"]) as [Hok _].
  split; [apply Hok; reflexivity|].
  split; [reflexivity|].
  apply (classify_groups collaborators "d" ["ave.X.001"]). reflexivity.
Defined.

Lemma rid_reader_merges_witness :
  value_of (rid_reader_data collaborators
              (PDict [("instrument", PStr "sa"); ("comment", PStr "c")])
              fresh) = Some tt
  /\ d_field _
       (state_of (rid_reader_data collaborators
                    (PDict [("instrument", PStr "sa"); ("comment", PStr "c")])
                    fresh)) instrument = PStr "sa"
  /\ d_field _
       (state_of (rid_reader_data collaborators
                    (PDict [("instrument", PStr "sa"); ("comment", PStr "c")])
                    fresh)) receiver = PNone.
Proof.
  assert (Hv : value_of (rid_reader_data collaborators
                           (PDict [("instrument", PStr "sa");
                                   ("comment", PStr "c")]) fresh) = Some tt)
    by (vm_compute; reflexivity).
  split; [exact Hv|].
  destruct (rid_reader_merges collaborators
              [("instrument", PStr "sa"); ("comment", PStr "c")] fresh _
              (ok_value _ _ Hv)) as (Hd & _ & _).
  split; [apply (Hd instrument)|apply (Hd receiver)].
Defined.

Lemma rid_reader_replaces_events_witness :
  value_of (rid_reader_data collaborators
              (PDict [("events",
                       PDict [("e1", PDict [("freq", PList [PNum "1.0"])])])])
              fresh) = Some tt
  /\ dict_get "e1"
       (events _
          (state_of
             (rid_reader_data collaborators
                (PDict [("events",
                         PDict [("e1",
                                 PDict [("freq", PList [PNum "1.0"])])])])
                fresh)))
     = Some (mkSpectral collaborators (PStr "") (PStr "")
                        (PList [PNum "1.0"]) (PList [])
                        None None).
Proof.
  assert (Hv : value_of
                 (rid_reader_data collaborators
                    (PDict [("events",
                             PDict [("e1",
                                     PDict [("freq", PList [PNum "1.0"])])])])
                    fresh) = Some tt)
    by (vm_compute; reflexivity).
  split; [exact Hv|].
  destruct (rid_reader_replaces_events collaborators
              [("events",
                PDict [("e1", PDict [("freq", PList [PNum "1.0"])])])]
              [("e1", PDict [("freq", PList [PNum "1.0"])])] fresh _
              (ok_value _ _ Hv) eq_refl) as (Hin & _).
  apply (Hin "e1" (PDict [("freq", PList [PNum "1.0"])])). reflexivity.
Defined.

Lemma rid_reader_merges_cal_witness :
  value_of (rid_reader_data collaborators
              (PDict [("cal",
                       PDict [("E", PDict [("freq", PList [PNum "1.0"])])])])
              fresh) = Some tt
  /\ dict_get "E"
       (cal _
          (state_of
             (rid_reader_data collaborators
                (PDict [("cal",
                         PDict [("E",
                                 PDict [("freq", PList [PNum "1.0"])])])])
                fresh)))
     = Some (mkSpectral collaborators (PStr "") (PStr "E")
                        (PList [PNum "1.0"]) (PList []) None None)
  /\ dict_get "N"
       (cal _
          (state_of
             (rid_reader_data collaborators
                (PDict [("cal",
                         PDict [("E",
                                 PDict [("freq", PList [PNum "1.0"])])])])
                fresh)))
     = Some (new_Spectral collaborators (PStr "N") (PStr "")).
Proof.
  assert (Hv : value_of
                 (rid_reader_data collaborators
                    (PDict [("cal",
                             PDict [("E",
                                     PDict [("freq", PList [PNum "1.0"])])])])
                    fresh) = Some tt)
    by (vm_compute; reflexivity).
  split; [exact Hv|].
  apply (rid_reader_merges_cal collaborators
           [("cal", PDict [("E", PDict [("freq", PList [PNum "1.0"])])])]
           [("E", PDict [("freq", PList [PNum "1.0"])])] fresh _
           (new_Spectral collaborators (PStr "E") (PStr ""))
           (new_Spectral collaborators (PStr "N") (PStr ""))
           (ok_value _ _ Hv) eq_refl eq_refl eq_refl).
Defined.

Lemma process_pol_time_stamp_witness :
  f_get "ave" "E" two_pairs_lists = Some ["d/ave.E.001"; "d/ave.E.002"]
  /\ f_get "maxh" "E" two_pairs_lists = Some ["d/maxh.E.001"; "d/maxh.E.002"]
  /\ value_of (process_pol collaborators 100 two_pairs_lists "E" two_pairs)
     = Some tt
  /\ d_field _
       (doc _ (state_of (process_pol collaborators 100 two_pairs_lists "E"
                                     two_pairs))) time_stamp
     = PStr "001".
Proof.
  assert (Hv : value_of (process_pol collaborators 100 two_pairs_lists "E"
                                     two_pairs) = Some tt)
    by (vm_compute; reflexivity).
  split; [reflexivity|]. split; [reflexivity|]. split; [exact Hv|].
  destruct (process_pol_time_stamp collaborators 100 two_pairs_lists "E"
              "d/ave.E.001" "d/maxh.E.001" ["d/ave.E.002"] ["d/maxh.E.002"]
              two_pairs
              (state_of (process_pol collaborators 100 two_pairs_lists "E"
                                     two_pairs))
              eq_refl eq_refl eq_refl (ok_value _ _ Hv)) as [Hts _].
  rewrite Hts. reflexivity.
Defined.

Lemma rid_reader_partial_witness :
  dict_get "comment" [("instrument", @PStr string "sa");
                      ("channel_width", PStr " ")] = None
  /\ all_space " " = true
  /\ exists st2,
      rid_reader_data collaborators
        (PDict [("instrument", PStr "sa"); ("channel_width", PStr " ")])
        fresh = Raise UnboundLocalError st2
      /\ d_field _ st2 instrument = PStr "sa".
Proof.
  split; [reflexivity|]. split; [reflexivity|].
  destruct (rid_reader_partial collaborators
              [("instrument", PStr "sa"); ("channel_width", PStr " ")]
              " " fresh eq_refl eq_refl eq_refl) as (st2 & Hr & Hd & _).
  exists st2. split; [exact Hr|]. apply (Hd instrument).
Defined.

Lemma unit_split_survives_witness :
  is_token "MHz" = true
  /\ is_token "12.5" = true
  /\ float_of_string collaborators (str_of_number collaborators "12.5")
     = Some "12.5"
  /\ exists ds x st',
      writer_ds collaborators
        (set_u_unit collaborators channel_width (PStr "MHz")
           (set_u_field collaborators channel_width (PNum "12.5") fresh))
      = Done (PDict ds)
      /\ dict_get "channel_width" ds = Some x
      /\ _set_uattr collaborators channel_width x fresh = Ok tt st'
      /\ u_field _ st' channel_width = PNum "12.5"
      /\ u_unit _ st' channel_width = PStr "MHz".
Proof.
  repeat (split; [reflexivity|]).
  destruct (writer_ds_ok collaborators
              (set_u_unit collaborators channel_width (PStr "MHz")
                 (set_u_field collaborators channel_width (PNum "12.5")
                              fresh)) eq_refl) as [v Hv].
  destruct v as [| | | | |ds];
    try (exfalso; revert Hv; unfold writer_ds;
         destruct (writer_cal collaborators _); discriminate).
  destruct (unit_split_survives collaborators channel_width _ ds "MHz" fresh
              Hv eq_refl eq_refl) as [_ Hnum].
  destruct (Hnum "12.5" eq_refl eq_refl eq_refl)
    as (x & st' & Hk & Hs & Hf & Hu).
  exists ds, x, st'. repeat split; assumption.
Defined.

End FurtherConcrete.
